(** * automation-bot-v2: the command dispatch of [main.go]

    A shallow embedding of the Slack automation relay: the configuration
    loader [loadConfig], the event handler [handleMessageEvent] and the
    two executors [executeJenkinsJob] and [executeTask], followed by the
    properties of the dispatch core.

    Modelling conventions.
    - A Go [string] is a sequence of bytes: Rocq's [string].
      [strings.ToLower] is its own loop on a string of ASCII bytes; on any
      other string it is [Map(unicode.ToLower, s)], whose UTF-8 decoding
      and case tables belong to Go's library: that map is a parameter
      ([Unicode]), and what is proved holds for every such map.
    - [map[string]Task] is a [gmap string Task].  The order in which
      [range] visits a map is left unspecified by Go and randomised by its
      runtime: the order is drawn from the environment ([map_choice]).
    - [map[string]interface{}] (decoded JSON) is a [gmap string JSON];
      a [nil] interface value is [JNull] or an absent key.
    - A [*http.Request] is an [option Request], [None] being [nil].
    - Effects (outbound HTTP calls, replies to the channel) are collected
      in a trace; a run-time panic ends the computation.  Log lines are
      not part of the trace. *)

From Stdlib Require Import ZArith NArith Ascii String List Permutation Lia.
From stdpp Require Import base option gmap strings list fin_maps.

(** ** The [strings] package, on byte strings *)

Module GoStrings.

Definition is_upper (c : ascii) : bool :=
  let n := N_of_ascii c in (N.leb 65 n) && (N.leb n 90).

(** [c += 'a' - 'A'] for the bytes ['A'..'Z']. *)
Definition lower_byte (c : ascii) : ascii :=
  if is_upper c then ascii_of_N (N_of_ascii c + 32) else c.

(** The loop of [strings.ToLower] over a string of ASCII bytes. *)
Fixpoint lowerASCII (s : string) : string :=
  match s with
  | EmptyString => EmptyString
  | String c s' => String (lower_byte c) (lowerASCII s')
  end.

(** [isASCII]: no byte reaches [utf8.RuneSelf], 0x80. *)
Fixpoint isASCII (s : string) : bool :=
  match s with
  | EmptyString => true
  | String c s' => N.ltb (N_of_ascii c) 128 && isASCII s'
  end.

(** [Map(unicode.ToLower, s)], to which [strings.ToLower] hands every
    string that is not ASCII: it decodes UTF-8, maps each rune through the
    case tables of the [unicode] package (U+0130 to [i], U+00C9 to
    U+00E9, ...) and writes U+FFFD for a byte that is no UTF-8.  Decoder
    and tables are Go's library, not this program: the map is a
    parameter. *)
Class Unicode := { Map_unicode_ToLower : string -> string }.

(** [strings.ToLower] *)
Definition ToLower `{Unicode} (s : string) : string :=
  if isASCII s then lowerASCII s else Map_unicode_ToLower s.

Fixpoint has_upper (s : string) : bool :=
  match s with
  | EmptyString => false
  | String c s' => is_upper c || has_upper s'
  end.

(** [len(s) >= len(prefix) && s[:len(prefix)] == prefix] *)
Fixpoint HasPrefix (s prefix : string) {struct prefix} : bool :=
  match prefix, s with
  | EmptyString, _ => true
  | String p prefix', String c s' => Ascii.eqb c p && HasPrefix s' prefix'
  | String _ _, EmptyString => false
  end.

(** [s[:n]] and [s[n:]], saturating at the end of [s]. *)
Fixpoint str_take (n : nat) (s : string) : string :=
  match n, s with
  | S n', String c s' => String c (str_take n' s')
  | _, _ => EmptyString
  end.

Fixpoint str_drop (n : nat) (s : string) : string :=
  match n, s with
  | S n', String _ s' => str_drop n' s'
  | _, _ => s
  end.

(** The index of the first occurrence of [substr] in [s]; [None] is
    Go's [-1]. *)
Fixpoint Index (s substr : string) : option nat :=
  if HasPrefix s substr then Some 0
  else match s with
       | EmptyString => None
       | String _ s' => option_map S (Index s' substr)
       end.

(** [strings.Replace s old new n] for a non-empty [old] and [n >= 0]:
    the first [n] occurrences, found from left to right without
    overlap, are replaced. *)
Fixpoint Replace (s old new : string) (n : nat) : string :=
  match n with
  | O => s
  | S n' =>
      match Index s old with
      | None => s
      | Some j =>
          str_take j s +:+ new +:+
            Replace (str_drop (j + String.length old) s) old new n'
      end
  end.

(** [strings.Split s sep] for a non-empty [sep] ([genSplit] with
    [n < 0]): cut at every occurrence of [sep], left to right.  Each cut
    consumes at least one byte, so [length s] rounds suffice. *)
Fixpoint genSplit (fuel : nat) (s sep : string) : list string :=
  match fuel with
  | O => [s]
  | S fuel' =>
      match Index s sep with
      | None => [s]
      | Some m =>
          str_take m s :: genSplit fuel' (str_drop (m + String.length sep) s) sep
      end
  end.

Definition Split (s sep : string) : list string :=
  genSplit (String.length s) s sep.

(** [strings.Join elems sep] *)
Fixpoint Join (elems : list string) (sep : string) : string :=
  match elems with
  | [] => EmptyString
  | x :: rest =>
      match rest with
      | [] => x
      | _ => x +:+ sep +:+ Join rest sep
      end
  end.

End GoStrings.

(** ** [encoding/base64]: [StdEncoding.EncodeToString] *)

Module Base64.

Definition encodeStd : string :=
  "ABCDEFGHIJKLMNOPQRSTUVWXYZabcdefghijklmnopqrstuvwxyz0123456789+/".

(** [enc.encode[v & 0x3F]] *)
Definition enc (v : N) : ascii :=
  match String.get (N.to_nat (N.land v 63)) encodeStd with
  | Some c => c
  | None => "="%char
  end.

Definition pad : ascii := "="%char.

(** Three source bytes give four digits; a remainder of one or two
    bytes is padded with ['=']. *)
Fixpoint encode (src : list N) : string :=
  match src with
  | [] => EmptyString
  | [a] =>
      let val := N.shiftl a 16 in
      String (enc (N.shiftr val 18)) (String (enc (N.shiftr val 12))
        (String pad (String pad EmptyString)))
  | [a; b] =>
      let val := N.lor (N.shiftl a 16) (N.shiftl b 8) in
      String (enc (N.shiftr val 18)) (String (enc (N.shiftr val 12))
        (String (enc (N.shiftr val 6)) (String pad EmptyString)))
  | a :: b :: c :: rest =>
      let val := N.lor (N.lor (N.shiftl a 16) (N.shiftl b 8)) c in
      String (enc (N.shiftr val 18)) (String (enc (N.shiftr val 12))
        (String (enc (N.shiftr val 6)) (String (enc val) (encode rest))))
  end.

Fixpoint bytes (s : string) : list N :=
  match s with
  | EmptyString => []
  | String c s' => N_of_ascii c :: bytes s'
  end.

Definition EncodeToString (s : string) : string := encode (bytes s).

End Base64.

Import GoStrings.

(** ** Data model *)

(** [type Task struct]: a static API task. *)
Record Task := mkTask {
  Command : string;
  URL : string;
  Method : string;
  User : string;
  Token : string;
}.

(** [type JenkinsConfig struct]: the dynamic deployment template. *)
Record JenkinsConfig := mkJenkins {
  JUser : string;
  JToken : string;
  URLFormat : string;
}.

(** [type Config struct] *)
Record Config := mkConfig {
  SlackToken : string;
  Tasks : gmap string Task;
  Jenkins : JenkinsConfig;
}.

(** The zero value of [Config] ([var config Config]); a [nil] map reads
    like an empty one. *)
Definition zeroConfig : Config :=
  mkConfig "" ∅ (mkJenkins "" "" "").

(** A decoded JSON value ([interface{}] as [encoding/json] fills it).
    A number keeps its literal: no handler path looks at its value. *)
#[warnings="-register-all"]
Inductive JSON :=
| JNull
| JBool (b : bool)
| JNumber (literal : string)
| JString (s : string)
| JArray (items : list JSON)
| JObject (fields : gmap string JSON).

(** ** The outside world *)

Record Request := mkRequest {
  req_method : string;
  req_url : string;
  req_header : list (string * string);
}.

(** What [client.Do] yields: an error, or a response with its status
    code. *)
Inductive Response :=
| TransportError
| Status (code : Z).

(** The outbound actions of a handler run, in program order. *)
Inductive Action :=
| HttpCall (req : Request)
| PostMessage (channel text : string).

(** The environment of one handler run: which URLs [http.NewRequest]
    accepts, what the network answers, and the random choices behind the
    iteration order of [range] over a map. *)
Record Env := mkEnv {
  url_parses : string -> bool;
  round_trip : Request -> Response;
  map_choice : list nat;
}.

Inductive Outcome (A : Type) :=
| Done (a : A)
| Panic (msg : string).
Arguments Done {A} a.
Arguments Panic {A} msg.

(** The result of a computation: its actions, the configuration store
    it leaves behind ([config] is a pointer, shared by all runs) and how
    it ended. *)
Record Result (A : Type) := mkResult {
  trace : list Action;
  store : Config;
  outcome : Outcome A;
}.
Arguments mkResult {A} trace store outcome.
Arguments trace {A} r.
Arguments store {A} r.
Arguments outcome {A} r.

Definition M (A : Type) : Type := Env -> Config -> Result A.

Definition ret {A} (a : A) : M A :=
  fun _ cfg => mkResult [] cfg (Done a).

Definition bind {A B} (m : M A) (k : A -> M B) : M B :=
  fun env cfg =>
    let r := m env cfg in
    match outcome r with
    | Done a =>
        let r' := k a env (store r) in
        mkResult (trace r ++ trace r') (store r') (outcome r')
    | Panic msg => mkResult (trace r) (store r) (Panic msg)
    end.

Notation "x <- m ;; k" := (bind m (fun x => k))
  (at level 100, m at next level, right associativity).
Notation "m ;;; k" := (bind m (fun _ => k))
  (at level 100, right associativity).

Definition panic {A} (msg : string) : M A :=
  fun _ cfg => mkResult [] cfg (Panic msg).

Definition emit (a : Action) : M unit :=
  fun _ cfg => mkResult [a] cfg (Done tt).

Definition ask : M Env := fun env cfg => mkResult [] cfg (Done env).

Definition getConfig : M Config := fun _ cfg => mkResult [] cfg (Done cfg).

(** *** Library calls *)

(** [http.NewRequest(method, url, nil)]: [(req, nil)], or [(nil, err)]
    when the URL does not parse.  The two methods used, ["GET"] and
    ["POST"], are always valid. *)
Definition http_NewRequest (method url : string)
  : M (option Request * option string) :=
  env <- ask ;;
  if url_parses env url
  then ret (Some (mkRequest method url []), None)
  else ret (None, Some "parse error").

(** [req.Header.Add(key, value)]: dereferences [req]. *)
Definition Header_Add (req : option Request) (key value : string)
  : M (option Request) :=
  match req with
  | None => panic "invalid memory address or nil pointer dereference"
  | Some r =>
      ret (Some (mkRequest (req_method r) (req_url r)
                   (req_header r ++ [(key, value)])))
  end.

(** [client.Do(req)] with the default client. *)
Definition client_Do (req : option Request) : M Response :=
  match req with
  | None => panic "invalid memory address or nil pointer dereference"
  | Some r =>
      emit (HttpCall r) ;;;
      env <- ask ;;
      ret (round_trip env r)
  end.

(** [api.PostMessage(channelID, slack.MsgOptionText(text, false))]; its
    error is only logged. *)
Definition api_PostMessage (channelID text : string) : M unit :=
  emit (PostMessage channelID text).

(** The keys of a map in the order [range] visits them: the key list
    rearranged by the runtime's random choices. *)
Fixpoint insert_at {A} (n : nat) (x : A) (l : list A) : list A :=
  match n, l with
  | S n', y :: l' => y :: insert_at n' x l'
  | _, _ => x :: l
  end.

Fixpoint arrange {A} (choice : list nat) (l : list A) : list A :=
  match l with
  | [] => []
  | x :: l' => insert_at (hd 0 choice) x (arrange (tl choice) l')
  end.

Definition map_keys (m : gmap string Task) : list string :=
  (map_to_list m).*1.

Definition range_keys (m : gmap string Task) : M (list string) :=
  env <- ask ;;
  ret (arrange (map_choice env) (map_keys m)).

(** Operations on [interface{}] values. *)
Definition index (m : gmap string JSON) (k : string) : JSON :=
  default JNull (m !! k).

Definition is_nil (v : JSON) : bool :=
  match v with JNull => true | _ => false end.

(** [v == "s"]: the dynamic type is [string] and the values agree. *)
Definition iface_eq_string (v : JSON) (s : string) : bool :=
  match v with JString s' => String.eqb s' s | _ => false end.

(** [v.(map[string]interface{})] *)
Definition assert_object (v : JSON) : M (gmap string JSON) :=
  match v with
  | JObject fields => ret fields
  | _ => panic "interface conversion: interface {} is not map[string]interface {}"
  end.

(** [v.(string)] *)
Definition assert_string (v : JSON) : M string :=
  match v with
  | JString s => ret s
  | _ => panic "interface conversion: interface {} is not string"
  end.

(** ** The executors *)

(** [func executeJenkinsJob(url, user, token string) bool] *)
Definition executeJenkinsJob (url user token : string) : M bool :=
  r <- http_NewRequest "POST" url ;;
  let '(req, err) := r in
  match err with
  | Some _ => ret false
  | None =>
      let auth := Base64.EncodeToString (user +:+ ":" +:+ token) in
      req <- Header_Add req "Authorization" ("Basic " +:+ auth) ;;
      resp <- client_Do req ;;
      match resp with
      | TransportError => ret false
      | Status code =>
          if (200 <=? code)%Z && (code <? 300)%Z then ret true else ret false
      end
  end.

(** [func executeTask(task Task) bool] *)
Definition executeTask (task : Task) : M bool :=
  r <-
    (if String.eqb (Method task) "POST" then
       r <- http_NewRequest "POST" (URL task) ;;
       let '(req, err) := r in
       req <- (if negb (String.eqb (User task) "")
                  && negb (String.eqb (Token task) "")
               then
                 let auth :=
                   Base64.EncodeToString (User task +:+ ":" +:+ Token task) in
                 Header_Add req "Authorization" ("Basic " +:+ auth)
               else ret req) ;;
       ret (req, err)
     else
       http_NewRequest "GET" (URL task)) ;;
  let '(req, err) := r in
  match err with
  | Some _ => ret false
  | None =>
      resp <- client_Do req ;;
      match resp with
      | TransportError => ret false
      | Status code =>
          if (200 <=? code)%Z && (code <? 300)%Z then ret true else ret false
      end
  end.

(** ** The event handler *)

Definition newline : string := String (ascii_of_N 10) EmptyString.

(** [func handleMessageEvent(api *slack.Client, event map[string]interface{},
    config *Config)] *)
Definition handleMessageEvent `{Unicode} (event : gmap string JSON) : M unit :=
  if negb (is_nil (index event "event")) then
    evt <- assert_object (index event "event") ;;
    if negb (is_nil (index evt "bot_id")) then ret tt
    else if iface_eq_string (index evt "type") "message"
            && is_nil (index evt "subtype") then
      messageText <- assert_string (index evt "text") ;;
      channelID <- assert_string (index evt "channel") ;;
      if String.eqb (ToLower messageText) "list command"
         || String.eqb (ToLower messageText) "list" then
        config <- getConfig ;;
        keys <- range_keys (Tasks config) ;;
        let commandsList :=
          fold_left (fun acc cmd => acc +:+ ("- " +:+ cmd +:+ newline)) keys "" in
        let response :=
          "Here are the available commands:" +:+ newline +:+ commandsList in
        api_PostMessage channelID response
      else if HasPrefix (ToLower messageText) "deploy " then
        let args := Split messageText " " in
        if Nat.eqb (length args) 3 then
          let serviceName := nth 1 args "" in
          let env := nth 2 args "" in
          config <- getConfig ;;
          let jenkinsURL :=
            Replace (URLFormat (Jenkins config)) "{service-name}" serviceName 1 in
          let jenkinsURL := Replace jenkinsURL "{env}" env 1 in
          success <- executeJenkinsJob jenkinsURL (JUser (Jenkins config))
                       (JToken (Jenkins config)) ;;
          let response :=
            if success : bool then
              "Jenkins job for service '" +:+ serviceName +:+
              "' in environment '" +:+ env +:+ "' executed successfully."
            else
              "Failed to execute Jenkins job for service '" +:+ serviceName +:+
              "' in environment '" +:+ env +:+ "'." in
          api_PostMessage channelID response
        else
          api_PostMessage channelID
            "Invalid deploy command format. Use: deploy <service-name> <env>"
      else
        let userCommand := ToLower messageText in
        config <- getConfig ;;
        match Tasks config !! userCommand with
        | Some task =>
            success <- executeTask task ;;
            let response :=
              if success : bool then
                "Task '" +:+ Command task +:+ "' executed successfully."
              else
                "Task '" +:+ Command task +:+ "' failed to execute." in
            api_PostMessage channelID response
        | None =>
            api_PostMessage channelID
              "I don't know your message. Please try again."
        end
    else ret tt
  else ret tt.

(** ** Loading the configuration *)

(** What [os.Open] yields for a path: an error, or a file whose bytes
    [ioutil.ReadAll] returns (its own error is dropped by the caller). *)
Inductive OpenResult :=
| OpenError (err : string)
| Opened (data : string).

Section Loader.

(** The file system, and [json.Unmarshal(data, &config)]: the
    configuration as the decoder leaves it, and its error if any. *)
Variable os_Open : string -> OpenResult.
Variable json_Unmarshal : string -> Config -> Config * option string.

(** [func loadConfig(filePath string)], returning a [Config] pointer and an error *)
Definition loadConfig (filePath : string) : option Config * option string :=
  match os_Open filePath with
  | OpenError err => (None, Some err)
  | Opened byteValue =>
      let config := zeroConfig in
      let '(config, _) := json_Unmarshal byteValue config in
      (Some config, None)
  end.

End Loader.

(** ** The handler seen as resolver and executor

    The specification names the decision of the [if] chain of
    [handleMessageEvent] an intent.  [Resolve] is that chain without its
    bodies and [perform] the bodies; [handleMessageEvent_plain] below shows
    that the handler is their composition. *)

Inductive Intent :=
| ListCommands
| Deploy (service env : string)
| InvalidDeployFormat
| StaticTask (task : Task)
| Unknown.

Definition Resolve `{Unicode} (config : Config) (messageText : string) : Intent :=
  if String.eqb (ToLower messageText) "list command"
     || String.eqb (ToLower messageText) "list" then ListCommands
  else if HasPrefix (ToLower messageText) "deploy " then
    let args := Split messageText " " in
    if Nat.eqb (length args) 3 then Deploy (nth 1 args "") (nth 2 args "")
    else InvalidDeployFormat
  else
    match Tasks config !! ToLower messageText with
    | Some task => StaticTask task
    | None => Unknown
    end.

Definition list_reply (keys : list string) : string :=
  "Here are the available commands:" +:+ newline +:+
  fold_left (fun acc cmd => acc +:+ ("- " +:+ cmd +:+ newline)) keys "".

Definition deploy_url (config : Config) (service env : string) : string :=
  Replace (Replace (URLFormat (Jenkins config)) "{service-name}" service 1)
    "{env}" env 1.

Definition deploy_reply (service env : string) (success : bool) : string :=
  if success then
    "Jenkins job for service '" +:+ service +:+
    "' in environment '" +:+ env +:+ "' executed successfully."
  else
    "Failed to execute Jenkins job for service '" +:+ service +:+
    "' in environment '" +:+ env +:+ "'.".

Definition task_reply (task : Task) (success : bool) : string :=
  if success then "Task '" +:+ Command task +:+ "' executed successfully."
  else "Task '" +:+ Command task +:+ "' failed to execute.".

Definition invalid_deploy_reply : string :=
  "Invalid deploy command format. Use: deploy <service-name> <env>".

Definition unknown_reply : string :=
  "I don't know your message. Please try again.".

Definition perform (channelID : string) (i : Intent) : M unit :=
  match i with
  | ListCommands =>
      config <- getConfig ;;
      keys <- range_keys (Tasks config) ;;
      api_PostMessage channelID (list_reply keys)
  | Deploy service env =>
      config <- getConfig ;;
      success <- executeJenkinsJob (deploy_url config service env)
                   (JUser (Jenkins config)) (JToken (Jenkins config)) ;;
      api_PostMessage channelID (deploy_reply service env success)
  | InvalidDeployFormat => api_PostMessage channelID invalid_deploy_reply
  | StaticTask task =>
      success <- executeTask task ;;
      api_PostMessage channelID (task_reply task success)
  | Unknown => api_PostMessage channelID unknown_reply
  end.

(** A plain message of a human: the nested event has type ["message"],
    no [bot_id], no [subtype], and string [text] and [channel]. *)
Definition plain_message (event : gmap string JSON) (text channel : string) : Prop :=
  exists evt : gmap string JSON,
    event !! "event" = Some (JObject evt) /\
    is_nil (index evt "bot_id") = true /\
    index evt "type" = JString "message" /\
    is_nil (index evt "subtype") = true /\
    index evt "text" = JString text /\
    index evt "channel" = JString channel.

(** The event Slack sends for [text] typed in [channel]. *)
Definition message_event (text channel : string) : gmap string JSON :=
  {[ "type" := JString "event_callback";
     "event" := JObject {[ "type" := JString "message";
                           "text" := JString text;
                           "channel" := JString channel ]} ]}.

(** ** Sample configuration and environments *)

(** The closed examples below lower-case ASCII text only, which
    [strings.ToLower] does by itself; they run with this stand-in for
    Go's Unicode map, which leaves the bytes from 0x80 on alone. *)
#[global] Instance byte_lower : Unicode := {| Map_unicode_ToLower := lowerASCII |}.

Definition sample_tasks : gmap string Task :=
  {[ "restart-api" := mkTask "Restart API" "http://x/restart" "POST" "u" "t";
     "health" := mkTask "Health" "http://x/health" "GET" "" "" ]}.

Definition sample_config : Config :=
  mkConfig "xoxb-token" sample_tasks
    (mkJenkins "ci" "secret" "http://j/job/{service-name}/{env}/build").

(** [net/url] refuses, before anything else, a URL with an ASCII control
    byte; this environment refuses exactly those, and every call is
    answered with the given status. *)
Definition is_ctl (c : ascii) : bool :=
  let n := N_of_ascii c in N.ltb n 32 || N.eqb n 127.

Fixpoint stringContainsCTLByte (s : string) : bool :=
  match s with
  | EmptyString => false
  | String c s' => is_ctl c || stringContainsCTLByte s'
  end.

Definition answering (code : Z) (choice : list nat) : Env :=
  mkEnv (fun u => negb (stringContainsCTLByte u)) (fun _ => Status code) choice.

(** ** Auxiliary definitions of the statements *)

(** The response classification written out in both executors:
    [resp.StatusCode >= 200 && resp.StatusCode < 300], and [false] when
    [client.Do] returned an error. *)
Definition status_success (resp : Response) : bool :=
  match resp with
  | TransportError => false
  | Status code => (200 <=? code)%Z && (code <? 300)%Z
  end.

(** The credential test of [executeTask]:
    [task.User != "" && task.Token != ""]. *)
Definition wants_auth (task : Task) : bool :=
  negb (String.eqb (User task) "") && negb (String.eqb (Token task) "").

Definition basic_auth (user token : string) : string * string :=
  ("Authorization", "Basic " +:+ Base64.EncodeToString (user +:+ ":" +:+ token)).

(** The request [executeTask] hands to [client.Do] when one is created. *)
Definition task_request (task : Task) : Request :=
  if String.eqb (Method task) "POST" then
    mkRequest "POST" (URL task)
      (if wants_auth task then [basic_auth (User task) (Token task)] else [])
  else mkRequest "GET" (URL task) [].

(** Follows the specification's words, not the source (which never
    trims): leading and trailing white space removed. *)
Definition is_space (c : ascii) : bool :=
  let n := N_of_ascii c in
  N.eqb n 32 || (N.leb 9 n && N.leb n 13).

Fixpoint trim_left (s : string) : string :=
  match s with
  | String c s' => if is_space c then trim_left s' else s
  | EmptyString => EmptyString
  end.

Fixpoint trim_right (s : string) : string :=
  match s with
  | EmptyString => EmptyString
  | String c s' =>
      match trim_right s' with
      | EmptyString => if is_space c then EmptyString else String c EmptyString
      | r => String c r
      end
  end.

Definition TrimSpace (s : string) : string := trim_right (trim_left s).


(** A task whose URL ends in a line feed, as a configuration file can
    hold it ([net/url] refuses control bytes), and a configuration with
    that task. *)
Definition broken_task : Task :=
  mkTask "Restart API" ("http://x/restart" +:+ newline) "POST" "u" "t".

Definition broken_config : Config :=
  mkConfig "xoxb-token" (<["restart-api" := broken_task]> sample_tasks)
    (mkJenkins "ci" "secret" "http://j/job/{service-name}/{env}/build").


(** A file system with the single file [config.json], whose content is
    not JSON, and a decoder that fails on it and leaves the configuration
    untouched, as [json.Unmarshal] does on a syntax error. *)
Definition one_file_fs (filePath : string) : OpenResult :=
  if String.eqb filePath "config.json" then Opened "slack_token: xoxb"
  else OpenError "open: no such file or directory".

Definition failing_decoder (data : string) (config : Config) : Config * option string :=
  (config, Some "invalid character 's' looking for beginning of value").



(** The number of replies and of HTTP calls in a trace. *)
Definition is_reply (a : Action) : bool :=
  match a with PostMessage _ _ => true | HttpCall _ => false end.

Definition replies (t : list Action) : nat := length (filter (fun a => is_reply a = true) t).
Definition http_calls (t : list Action) : nat := length (filter (fun a => is_reply a = false) t).

(** ** Definitions of the further properties *)

(** Whether, and how often, the byte [c] occurs in [s]. *)
Fixpoint has_byte (c : ascii) (s : string) : bool :=
  match s with
  | EmptyString => false
  | String a s' => Ascii.eqb a c || has_byte c s'
  end.

Fixpoint count_byte (c : ascii) (s : string) : nat :=
  match s with
  | EmptyString => 0
  | String a s' => (if Ascii.eqb a c then 1 else 0) + count_byte c s'
  end.

(** Facts about [strings.ToLower] that rest on Go's decoder and case
    tables.  Blanks are kept: a blank is a rune of its own, none is made
    and none is lost, so a text is lower-cased word by word.  And
    lower-casing what is lower-cased changes nothing. *)
Definition keeps_blanks `{Unicode} : Prop :=
  (forall a b, ToLower (a +:+ " " +:+ b) = ToLower a +:+ " " +:+ ToLower b) /\
  (forall s, has_byte " " (ToLower s) = has_byte " " s).

Definition lower_idempotent `{Unicode} : Prop :=
  forall s, ToLower (ToLower s) = ToLower s.

(** A third: no rune lower-cases to one of ['A'..'Z'], and the runes
    from U+0080 on are written with bytes from 0x80 on. *)
Definition lower_no_capital `{Unicode} : Prop :=
  forall s, has_upper (ToLower s) = false.

(** The bytes of U+0130, the capital I with a dot, inside [LIST], and of
    [CAFE], [cafE] and [cafe] with an acute accent on the last letter. *)
Definition dotted_LIST : string :=
  String "L" (String (ascii_of_N 196) (String (ascii_of_N 176) "ST")).

Definition upper_CAFE : string :=
  "CAF" +:+ String (ascii_of_N 195) (String (ascii_of_N 137) "").

Definition mixed_cafE : string :=
  "caf" +:+ String (ascii_of_N 195) (String (ascii_of_N 137) "").

Definition lower_cafe : string :=
  "caf" +:+ String (ascii_of_N 195) (String (ascii_of_N 169) "").

(** An intent with the arguments of a deployment in lower case. *)
Definition lower_intent `{Unicode} (i : Intent) : Intent :=
  match i with
  | Deploy service env => Deploy (ToLower service) (ToLower env)
  | _ => i
  end.

(** ** The webhook endpoint

    The function [main] registers for [/slack/events]; what it writes to
    the [http.ResponseWriter] is its result. *)


Section Server.

(** [json.Unmarshal(body, &parsedBody)] into a map, and
    [json.Unmarshal(body, &challengeResp)] into a [ChallengeResponse],
    of which only the field [Challenge] is read; [None] is an error. *)
Variable json_Unmarshal_map : string -> option (gmap string JSON).
Variable json_Unmarshal_challenge : string -> option string.


End Server.

(** ** The earlier versions of the handler *)

(** [backup/main copy 4.go]: static tasks with method and credentials,
    no deployments. *)
Module Backup.

(** [func executeTask(task Task) bool] *)
Definition executeTask (task : Task) : M bool :=
  r <-
    (if String.eqb (Method task) "POST" then
       r <- http_NewRequest "POST" (URL task) ;;
       let '(req, err) := r in
       req <- (if negb (String.eqb (User task) "")
                  && negb (String.eqb (Token task) "")
               then
                 let auth :=
                   Base64.EncodeToString (User task +:+ ":" +:+ Token task) in
                 Header_Add req "Authorization" ("Basic " +:+ auth)
               else ret req) ;;
       ret (req, err)
     else
       http_NewRequest "GET" (URL task)) ;;
  let '(req, err) := r in
  match err with
  | Some _ => ret false
  | None =>
      resp <- client_Do req ;;
      match resp with
      | TransportError => ret false
      | Status code =>
          if (200 <=? code)%Z && (code <? 300)%Z then ret true else ret false
      end
  end.

(** [func handleMessageEvent(api, event, config)] *)
Definition handleMessageEvent `{Unicode} (event : gmap string JSON) : M unit :=
  if negb (is_nil (index event "event")) then
    evt <- assert_object (index event "event") ;;
    if negb (is_nil (index evt "bot_id")) then ret tt
    else if iface_eq_string (index evt "type") "message"
            && is_nil (index evt "subtype") then
      messageText <- assert_string (index evt "text") ;;
      channelID <- assert_string (index evt "channel") ;;
      let userCommand := ToLower messageText in
      if String.eqb userCommand "list command" || String.eqb userCommand "list" then
        config <- getConfig ;;
        keys <- range_keys (Tasks config) ;;
        let commandsList :=
          fold_left (fun acc cmd => acc +:+ ("- " +:+ cmd +:+ newline)) keys "" in
        let response :=
          "Here are the available commands:" +:+ newline +:+ commandsList in
        api_PostMessage channelID response
      else
        config <- getConfig ;;
        match Tasks config !! userCommand with
        | Some task =>
            success <- executeTask task ;;
            let response :=
              if success : bool then
                "Task '" +:+ Command task +:+ "' executed successfully."
              else
                "Task '" +:+ Command task +:+ "' failed to execute." in
            api_PostMessage channelID response
        | None =>
            api_PostMessage channelID
              "I don't know your message. Please try again."
        end
    else ret tt
  else ret tt.

End Backup.

(** The first version (its file name is not known): a task is a command
    and a URL, fetched with [http.Get].  Its [Task] has no other field;
    the fields [Method], [User] and [Token] of the record are not read. *)
Module Original.

(** [http.Get(url)]: a GET request built and sent by the default client;
    either failure comes back as its error. *)
Definition http_Get (url : string) : M Response :=
  r <- http_NewRequest "GET" url ;;
  let '(req, err) := r in
  match err with
  | Some _ => ret TransportError
  | None => client_Do req
  end.

(** [func executeTask(taskURL string) bool] *)
Definition executeTask (taskURL : string) : M bool :=
  resp <- http_Get taskURL ;;
  match resp with
  | TransportError => ret false
  | Status code =>
      if (200 <=? code)%Z && (code <? 300)%Z then ret true else ret false
  end.

(** [func handleMessageEvent(api, event, config)] *)
Definition handleMessageEvent `{Unicode} (event : gmap string JSON) : M unit :=
  if negb (is_nil (index event "event")) then
    evt <- assert_object (index event "event") ;;
    if negb (is_nil (index evt "bot_id")) then ret tt
    else if iface_eq_string (index evt "type") "message"
            && is_nil (index evt "subtype") then
      messageText <- assert_string (index evt "text") ;;
      channelID <- assert_string (index evt "channel") ;;
      let userCommand := ToLower messageText in
      if String.eqb userCommand "list command" || String.eqb userCommand "list" then
        config <- getConfig ;;
        keys <- range_keys (Tasks config) ;;
        let commandsList :=
          fold_left (fun acc cmd => acc +:+ ("- " +:+ cmd +:+ newline)) keys "" in
        let response :=
          "Here are the available commands:" +:+ newline +:+ commandsList in
        api_PostMessage channelID response
      else
        config <- getConfig ;;
        match Tasks config !! userCommand with
        | Some task =>
            success <- executeTask (URL task) ;;
            let response :=
              if success : bool then
                "Task '" +:+ Command task +:+ "' executed successfully."
              else
                "Task '" +:+ Command task +:+ "' failed to execute." in
            api_PostMessage channelID response
        | None =>
            api_PostMessage channelID
              "I don't know your message. Please try again."
        end
    else ret tt
  else ret tt.

End Original.

(** A configuration with a task under a key that starts with
    ["deploy "]. *)
Definition shadowed_config : Config :=
  mkConfig "xoxb-token"
    {[ "deploy docs" := mkTask "Deploy docs" "http://x/docs" "" "" "" ]}
    (mkJenkins "ci" "secret" "http://j/job/{service-name}/{env}/build").

(** The position of the first [c] in [s] ([length s] when there is
    none), and whether a property holds of every byte of a string. *)
Fixpoint find_byte (c : ascii) (s : string) : N :=
  match s with
  | EmptyString => 0%N
  | String a s' => if Ascii.eqb a c then 0%N else N.succ (find_byte c s')
  end.

Fixpoint all_bytes (P : ascii -> bool) (s : string) : bool :=
  match s with
  | EmptyString => true
  | String a s' => P a && all_bytes P s'
  end.

(** A digit of the base64 alphabet, or the padding sign. *)
Definition is_b64_byte (c : ascii) : bool :=
  has_byte c Base64.encodeStd || Ascii.eqb c Base64.pad.

(** * Properties *)

(** ** Strings *)

Example ToLower_list : ToLower "LiSt Command" = "list command".
Proof. reflexivity. Qed.

Example Split_deploy :
  Split "deploy payments prod" " " = ["deploy"; "payments"; "prod"].
Proof. reflexivity. Qed.

Example Split_double_space : Split "deploy  prod" " " = ["deploy"; ""; "prod"].
Proof. reflexivity. Qed.

Example Replace_first_only :
  Replace "a/{env}/{env}" "{env}" "prod" 1 = "a/prod/{env}".
Proof. reflexivity. Qed.

Example base64_u_t : Base64.EncodeToString "u:t" = "dTp0".
Proof. reflexivity. Qed.

Example base64_colon : Base64.EncodeToString ":" = "Og==".
Proof. reflexivity. Qed.

Example base64_padding : Base64.EncodeToString "jenkins:s3" = "amVua2luczpzMw==".
Proof. reflexivity. Qed.

Section StringFacts.

Lemma lower_byte_not_upper (c : ascii) : is_upper (lower_byte c) = false.
Proof.
  destruct c as [[] [] [] [] [] [] [] []]; reflexivity.
Qed.

Lemma lowerASCII_no_upper (s : string) : has_upper (lowerASCII s) = false.
Proof.
  induction s as [|c s IH]; simpl; [reflexivity|].
  now rewrite lower_byte_not_upper, IH.
Qed.

Lemma lowerASCII_fixed (s : string) : has_upper s = false -> lowerASCII s = s.
Proof.
  induction s as [|c s IH]; simpl; [reflexivity|].
  intros H. apply orb_false_iff in H as [Hc Hs].
  unfold lower_byte. rewrite Hc, (IH Hs). reflexivity.
Qed.

Lemma append_String (c : ascii) (a b : string) :
  String c a +:+ b = String c (a +:+ b).
Proof. reflexivity. Qed.

Lemma append_empty (b : string) : "" +:+ b = b.
Proof. reflexivity. Qed.

Lemma lower_byte_blank (a : ascii) :
  Ascii.eqb (lower_byte a) " " = Ascii.eqb a " ".
Proof. destruct a as [[] [] [] [] [] [] [] []]; reflexivity. Qed.

Lemma lowerASCII_app (a b : string) :
  lowerASCII (a +:+ b) = lowerASCII a +:+ lowerASCII b.
Proof.
  induction a as [|x a IH]; [reflexivity|].
  rewrite append_String. simpl. now rewrite IH, append_String.
Qed.

Lemma has_byte_lowerASCII_blank (s : string) :
  has_byte " " (lowerASCII s) = has_byte " " s.
Proof.
  induction s as [|x s IH]; [reflexivity|].
  simpl. now rewrite lower_byte_blank, IH.
Qed.

(** On a string of ASCII bytes [strings.ToLower] is its own loop,
    whatever the Unicode map. *)
Lemma ToLower_ASCII `{Unicode} (s : string) :
  isASCII s = true -> ToLower s = lowerASCII s.
Proof. intros H0. unfold ToLower. now rewrite H0. Qed.

(** The stand-in of the examples is the loop on every string, and has
    the two properties of Go's map. *)
Lemma byte_lower_ToLower (s : string) : ToLower s = lowerASCII s.
Proof. unfold ToLower. destruct (isASCII s); reflexivity. Qed.

Lemma byte_lower_keeps_blanks : keeps_blanks.
Proof.
  split.
  - intros a b. rewrite !byte_lower_ToLower, !lowerASCII_app. reflexivity.
  - intros s. rewrite byte_lower_ToLower. apply has_byte_lowerASCII_blank.
Qed.

Lemma byte_lower_idempotent : lower_idempotent.
Proof.
  intros s. rewrite !byte_lower_ToLower.
  apply lowerASCII_fixed, lowerASCII_no_upper.
Qed.

Lemma byte_lower_no_capital : lower_no_capital.
Proof. intros s. rewrite byte_lower_ToLower. apply lowerASCII_no_upper. Qed.

Lemma HasPrefix_app (s prefix : string) :
  HasPrefix s prefix = true <-> exists rest, s = prefix +:+ rest.
Proof.
  revert s. induction prefix as [|p prefix IH]; intros s; simpl.
  - split; [intros _; now exists s | reflexivity].
  - destruct s as [|c s].
    + split; [discriminate | intros [rest H]; discriminate].
    + rewrite andb_true_iff, Ascii.eqb_eq, IH. split.
      * intros [-> [rest ->]]. now exists rest.
      * intros [rest H]. injection H as -> ->. split; [reflexivity | now exists rest].
Qed.

Lemma str_take_drop (n : nat) (s : string) : str_take n s +:+ str_drop n s = s.
Proof.
  revert s. induction n as [|n IH]; intros [|c s]; simpl; try reflexivity.
  now rewrite append_String, IH.
Qed.

Lemma str_drop_add (n m : nat) (s : string) :
  str_drop (n + m) s = str_drop m (str_drop n s).
Proof.
  revert s. induction n as [|n IH]; intros s; simpl.
  - reflexivity.
  - destruct s as [|c s]; simpl; [now destruct m | apply IH].
Qed.

(** [Index] finds an occurrence, and the leftmost one. *)
Lemma Index_Some (s substr : string) (j : nat) :
  Index s substr = Some j ->
  HasPrefix (str_drop j s) substr = true /\
  forall i, i < j -> HasPrefix (str_drop i s) substr = false.
Proof.
  revert j. induction s as [|c s IH]; intros j; simpl.
  - destruct (HasPrefix "" substr) eqn:Hp; [|discriminate].
    intros [= <-]. split; [exact Hp | intros i Hi; lia].
  - destruct (HasPrefix (String c s) substr) eqn:Hp.
    + intros [= <-]. split; [exact Hp | intros i Hi; lia].
    + destruct (Index s substr) as [k|] eqn:Hk; simpl; [|discriminate].
      intros [= <-]. destruct (IH k eq_refl) as [Hfound Hfirst].
      split; [exact Hfound|].
      intros [|i] Hi; simpl; [exact Hp | apply Hfirst; lia].
Qed.

Lemma Index_None (s substr : string) :
  Index s substr = None -> forall i, HasPrefix (str_drop i s) substr = false.
Proof.
  induction s as [|c s IH]; simpl.
  - destruct (HasPrefix "" substr) eqn:Hp; [discriminate|].
    intros _ [|i]; exact Hp.
  - destruct (HasPrefix (String c s) substr) eqn:Hp; [discriminate|].
    destruct (Index s substr) eqn:Hk; simpl; [discriminate|].
    intros _ [|i]; simpl; [exact Hp | now apply IH].
Qed.

(** [Replace ... 1] rewrites the leftmost occurrence and nothing else. *)
Lemma Replace_first (s old new : string) (j : nat) :
  Index s old = Some j ->
  Replace s old new 1 =
    str_take j s +:+ new +:+ str_drop (j + String.length old) s.
Proof. intros H. simpl. now rewrite H. Qed.

Lemma Replace_absent (s old new : string) (n : nat) :
  Index s old = None -> Replace s old new n = s.
Proof. intros H. destruct n; simpl; [reflexivity | now rewrite H]. Qed.

Lemma str_drop_length_app (a b : string) :
  str_drop (String.length a) (a +:+ b) = b.
Proof. induction a as [|c a IH]; simpl; [reflexivity | exact IH]. Qed.

(** An occurrence found by [Index] cuts the string in three. *)
Lemma Index_split (s substr : string) (j : nat) :
  Index s substr = Some j ->
  s = str_take j s +:+ substr +:+ str_drop (j + String.length substr) s.
Proof.
  intros H. destruct (Index_Some _ _ _ H) as [Hp _].
  apply HasPrefix_app in Hp as [rest Hrest].
  rewrite str_drop_add, Hrest, str_drop_length_app, <- Hrest.
  symmetry. apply str_take_drop.
Qed.

Lemma Replace_first_occurrence (s old new : string) (j : nat) :
  Index s old = Some j ->
  exists rest,
    s = str_take j s +:+ old +:+ rest /\
    Replace s old new 1 = str_take j s +:+ new +:+ rest.
Proof.
  intros H. exists (str_drop (j + String.length old) s).
  split; [now apply Index_split | now apply Replace_first].
Qed.

(** [Split] cuts and [Join] glues: no byte is lost. *)
Lemma genSplit_nonempty (fuel : nat) (s sep : string) : genSplit fuel s sep <> [].
Proof.
  destruct fuel; simpl; [discriminate|].
  destruct (Index s sep); discriminate.
Qed.

Lemma genSplit_Join (fuel : nat) (s sep : string) :
  Join (genSplit fuel s sep) sep = s.
Proof.
  revert s. induction fuel as [|fuel IH]; intros s; simpl; [reflexivity|].
  destruct (Index s sep) as [m|] eqn:Hm; simpl; [|reflexivity].
  pose proof (genSplit_nonempty fuel (str_drop (m + String.length sep) s) sep) as Hne.
  specialize (IH (str_drop (m + String.length sep) s)).
  destruct (genSplit fuel (str_drop (m + String.length sep) s) sep) as [|t ts];
    [contradiction|].
  rewrite IH. symmetry. now apply Index_split.
Qed.

Lemma Split_Join (s sep : string) : Join (Split s sep) sep = s.
Proof. apply genSplit_Join. Qed.

Lemma length_append (a b : string) :
  String.length (a +:+ b) = String.length a + String.length b.
Proof. induction a as [|c a IH]; simpl; [reflexivity | now rewrite <- IH]. Qed.

Lemma str_take_length (n : nat) (s : string) : String.length (str_take n s) <= n.
Proof.
  revert s. induction n as [|n IH]; intros [|c s]; simpl; try lia.
  specialize (IH s). lia.
Qed.

Lemma str_drop_app (i : nat) (a b : string) :
  i <= String.length a -> str_drop i (a +:+ b) = str_drop i a +:+ b.
Proof.
  revert a. induction i as [|i IH]; intros a Hi; simpl.
  - reflexivity.
  - destruct a as [|c a]; simpl in *; [lia|]. apply IH. lia.
Qed.

Lemma str_drop_all (i : nat) (s : string) :
  String.length s <= i -> str_drop i s = "".
Proof.
  revert s. induction i as [|i IH]; intros [|c s] Hi; simpl in *;
    try reflexivity; try lia.
  apply IH. lia.
Qed.

Lemma HasPrefix_empty (sep : string) : sep <> "" -> HasPrefix "" sep = false.
Proof. destruct sep; [contradiction | reflexivity]. Qed.

(** What precedes the first occurrence holds no occurrence. *)
Lemma Index_take_None (s sep : string) (m : nat) :
  sep <> "" -> Index s sep = Some m -> Index (str_take m s) sep = None.
Proof.
  intros Hsep Hm.
  destruct (Index (str_take m s) sep) as [i|] eqn:Hi; [exfalso|reflexivity].
  destruct (Index_Some _ _ _ Hi) as [Hp _].
  destruct (Index_Some _ _ _ Hm) as [_ Hfirst].
  pose proof (str_take_length m s) as Hlen.
  destruct (Nat.le_gt_cases (String.length (str_take m s)) i) as [Hge|Hlt].
  - rewrite (str_drop_all _ _ Hge), (HasPrefix_empty _ Hsep) in Hp. discriminate.
  - assert (Hi' : HasPrefix (str_drop i s) sep = true).
    { rewrite <- (str_take_drop m s), str_drop_app by lia.
      apply HasPrefix_app in Hp as [rest ->].
      apply HasPrefix_app. exists (rest +:+ str_drop m s).
      clear. induction sep as [|c sep IH]; simpl; [reflexivity|].
      now rewrite !append_String, IH. }
    rewrite Hfirst in Hi' by lia. discriminate.
Qed.

(** With a non-empty separator, no token of [Split] holds the separator:
    the service and the environment of a deploy command have no blank. *)
Lemma genSplit_tokens (fuel : nat) (s sep token : string) :
  sep <> "" -> String.length s <= fuel ->
  In token (genSplit fuel s sep) -> Index token sep = None.
Proof.
  intros Hsep. revert s. induction fuel as [|fuel IH]; intros s Hlen; simpl.
  - intros [<-|[]]. destruct s; simpl in *; [|lia].
    now rewrite (HasPrefix_empty _ Hsep).
  - destruct (Index s sep) as [m|] eqn:Hm; simpl.
    + intros [<-|Hin]; [now apply Index_take_None|].
      apply (IH (str_drop (m + String.length sep) s)); [|exact Hin].
      pose proof (f_equal String.length (Index_split _ _ _ Hm)) as Hs.
      rewrite !length_append in Hs.
      destruct sep; [contradiction|]. simpl in *. lia.
    + intros [<-|[]]. exact Hm.
Qed.

Lemma Split_tokens (s sep token : string) :
  sep <> "" -> In token (Split s sep) -> Index token sep = None.
Proof. intros Hsep. now apply genSplit_tokens. Qed.

End StringFacts.

(** ** Iteration order of [range] *)

Section RangeOrder.

Context {A : Type}.

Lemma insert_at_perm (n : nat) (x : A) (l : list A) :
  Permutation (insert_at n x l) (x :: l).
Proof.
  revert n. induction l as [|y l IH]; intros [|n]; simpl; try reflexivity.
  rewrite IH. apply perm_swap.
Qed.

(** Whatever the runtime chooses, every element is visited once. *)
Lemma arrange_perm (choice : list nat) (l : list A) :
  Permutation (arrange choice l) l.
Proof.
  revert choice. induction l as [|x l IH]; intros choice; simpl.
  - reflexivity.
  - rewrite insert_at_perm. now rewrite IH.
Qed.

Lemma insert_at_middle (x : A) (l1 l2 : list A) :
  insert_at (length l1) x (l1 ++ l2) = l1 ++ x :: l2.
Proof.
  induction l1 as [|y l1 IH]; simpl.
  - now destruct l2.
  - now rewrite IH.
Qed.

(** And every order can be chosen. *)
Lemma arrange_complete (l l' : list A) :
  Permutation l l' -> exists choice, arrange choice l = l'.
Proof.
  revert l'. induction l as [|x l IH]; intros l' Hp.
  - apply Permutation_nil in Hp. subst. now exists [].
  - assert (Hin : In x l') by (eapply Permutation_in; [exact Hp | now left]).
    apply in_split in Hin as [l1 [l2 ->]].
    apply Permutation_cons_app_inv in Hp.
    destruct (IH _ Hp) as [choice Hc].
    exists (length l1 :: choice). simpl. rewrite Hc.
    apply insert_at_middle.
Qed.

End RangeOrder.

Lemma map_keys_NoDup (m : gmap string Task) : NoDup (map_keys m).
Proof. apply NoDup_fst_map_to_list. Qed.

Lemma map_keys_lookup (m : gmap string Task) (k : string) :
  k ∈ map_keys m <-> is_Some (m !! k).
Proof.
  unfold map_keys. rewrite list_elem_of_fmap. split.
  - intros [[k' t] [-> Hin]]. apply elem_of_map_to_list in Hin. now exists t.
  - intros [t Ht]. exists (k, t). split; [reflexivity|].
    now apply elem_of_map_to_list.
Qed.

(** ** Running computations *)

#[local] Arguments HasPrefix : simpl never.
#[local] Arguments ToLower : simpl never.
#[local] Arguments Split : simpl never.
#[local] Arguments Replace : simpl never.
#[local] Arguments Base64.EncodeToString : simpl never.
#[local] Arguments String.eqb : simpl never.

Ltac run :=
  unfold bind, ret, panic, emit, ask, getConfig, api_PostMessage; simpl.

(** What [executeJenkinsJob] does, by cases on the URL. *)
Lemma executeJenkinsJob_run (url user token : string) (env : Env) (cfg : Config) :
  executeJenkinsJob url user token env cfg =
    if url_parses env url then
      let req := mkRequest "POST" url
                   [basic_auth user token] in
      mkResult [HttpCall req] cfg (Done (status_success (round_trip env req)))
    else mkResult [] cfg (Done false).
Proof.
  unfold executeJenkinsJob, basic_auth, http_NewRequest, Header_Add, client_Do.
  run.
  destruct (url_parses env url); simpl; [|reflexivity].
  destruct (round_trip env _) as [|code]; simpl; [reflexivity|].
  destruct ((200 <=? code)%Z && (code <? 300)%Z); reflexivity.
Qed.

(** What [executeTask] does, by cases on the method, the credentials and
    the URL. *)
Lemma executeTask_run (task : Task) (env : Env) (cfg : Config) :
  executeTask task env cfg =
    if url_parses env (URL task) then
      mkResult [HttpCall (task_request task)] cfg
        (Done (status_success (round_trip env (task_request task))))
    else if String.eqb (Method task) "POST" && wants_auth task then
      mkResult [] cfg (Panic "invalid memory address or nil pointer dereference")
    else mkResult [] cfg (Done false).
Proof.
  unfold executeTask, task_request, wants_auth, basic_auth, http_NewRequest,
    Header_Add, client_Do. run.
  destruct (String.eqb (Method task) "POST"); simpl;
    destruct (url_parses env (URL task)); simpl;
    try destruct (negb (String.eqb (User task) "") && negb (String.eqb (Token task) ""));
    simpl; try reflexivity;
    match goal with
    | |- context [round_trip env ?r] =>
        destruct (round_trip env r) as [|code]; simpl; [reflexivity|];
        destruct ((200 <=? code)%Z && (code <? 300)%Z); reflexivity
    end.
Qed.

(** ** The handler is resolution followed by execution *)

Lemma message_event_plain (text channel : string) :
  plain_message (message_event text channel) text channel.
Proof.
  eexists. split; [reflexivity|]. repeat split; reflexivity.
Qed.

Lemma handleMessageEvent_plain {uni : Unicode} event text channel env cfg :
  plain_message event text channel ->
  handleMessageEvent event env cfg = perform channel (Resolve cfg text) env cfg.
Proof.
  intros (evt & Hevt & Hbot & Htype & Hsub & Htext & Hchan).
  unfold handleMessageEvent, index at 1 2. rewrite Hevt. simpl.
  unfold assert_object, bind at 1, ret at 1. simpl.
  rewrite Hbot, Htype, Hsub, Htext, Hchan. simpl.
  unfold Resolve.
  destruct (String.eqb (ToLower text) "list command"
            || String.eqb (ToLower text) "list"); simpl.
  { reflexivity. }
  destruct (HasPrefix (ToLower text) "deploy "); simpl.
  { destruct (Nat.eqb (length (Split text " ")) 3); simpl; [|reflexivity].
    unfold perform, deploy_url, deploy_reply. run.
    rewrite !executeJenkinsJob_run.
    destruct (url_parses env _); simpl; [|reflexivity].
    destruct (status_success _); reflexivity. }
  run. destruct (Tasks cfg !! ToLower text) as [task|]; simpl; [|reflexivity].
  unfold perform, task_reply. run. rewrite !executeTask_run.
  destruct (url_parses env _); simpl.
  - destruct (status_success _); reflexivity.
  - destruct (String.eqb (Method task) "POST" && wants_auth task); reflexivity.
Qed.

Lemma perform_ListCommands channel env cfg :
  perform channel ListCommands env cfg =
    mkResult
      [PostMessage channel (list_reply (arrange (map_choice env) (map_keys (Tasks cfg))))]
      cfg (Done tt).
Proof. reflexivity. Qed.

Lemma perform_Deploy channel service envName env cfg :
  perform channel (Deploy service envName) env cfg =
    let req :=
      mkRequest "POST" (deploy_url cfg service envName)
        [basic_auth (JUser (Jenkins cfg)) (JToken (Jenkins cfg))] in
    if url_parses env (deploy_url cfg service envName) then
      mkResult
        [HttpCall req;
         PostMessage channel
           (deploy_reply service envName (status_success (round_trip env req)))]
        cfg (Done tt)
    else
      mkResult [PostMessage channel (deploy_reply service envName false)] cfg (Done tt).
Proof.
  unfold perform. run. rewrite !executeJenkinsJob_run.
  destruct (url_parses env _); reflexivity.
Qed.

Lemma perform_StaticTask channel task env cfg :
  perform channel (StaticTask task) env cfg =
    if url_parses env (URL task) then
      mkResult
        [HttpCall (task_request task);
         PostMessage channel
           (task_reply task (status_success (round_trip env (task_request task))))]
        cfg (Done tt)
    else if String.eqb (Method task) "POST" && wants_auth task then
      mkResult [] cfg (Panic "invalid memory address or nil pointer dereference")
    else mkResult [PostMessage channel (task_reply task false)] cfg (Done tt).
Proof.
  unfold perform. run. rewrite !executeTask_run.
  destruct (url_parses env _); simpl; [reflexivity|].
  destruct (String.eqb (Method task) "POST" && wants_auth task); reflexivity.
Qed.

(** ** The deploy command *)

Lemma Resolve_deploy_prefix {uni : Unicode} config messageText :
  HasPrefix (ToLower messageText) "deploy " = true ->
  Resolve config messageText =
    if Nat.eqb (length (Split messageText " ")) 3
    then Deploy (nth 1 (Split messageText " ") "") (nth 2 (Split messageText " ") "")
    else InvalidDeployFormat.
Proof.
  intros Hp. unfold Resolve. rewrite Hp.
  apply HasPrefix_app in Hp as [rest Hrest]. rewrite Hrest.
  reflexivity.
Qed.

(** C1.  A message whose lower-cased text starts with ["deploy "] resolves
    to [Deploy] with the second and third token of the text as typed when
    splitting it on single spaces gives exactly three tokens, and to
    [InvalidDeployFormat] otherwise; [InvalidDeployFormat] posts the error
    reply and nothing else.  The decision is never [ListCommands] and does
    not look at the task table, whatever keys it holds; the handler runs
    the resolved intent. *)
Theorem deploy_resolution {uni : Unicode} (config : Config) (messageText : string) :
  HasPrefix (ToLower messageText) "deploy " = true ->
  (forall cmd service envName,
      Split messageText " " = [cmd; service; envName] ->
      Resolve config messageText = Deploy service envName) /\
  (length (Split messageText " ") <> 3 ->
   Resolve config messageText = InvalidDeployFormat) /\
  (forall channel env cfg,
      perform channel InvalidDeployFormat env cfg =
        mkResult [PostMessage channel invalid_deploy_reply] cfg (Done tt)) /\
  Resolve config messageText <> ListCommands /\
  (forall tasks,
      Resolve (mkConfig (SlackToken config) tasks (Jenkins config)) messageText =
        Resolve config messageText) /\
  (forall event channel env,
      plain_message event messageText channel ->
      handleMessageEvent event env config =
        perform channel (Resolve config messageText) env config).
Proof.
  intros Hp. split; [|split; [|split; [reflexivity|split; [|split]]]].
  - intros cmd service envName Hs.
    rewrite (Resolve_deploy_prefix _ _ Hp), Hs. reflexivity.
  - intros Hlen. rewrite (Resolve_deploy_prefix _ _ Hp).
    destruct (Nat.eqb_spec (length (Split messageText " ")) 3); [contradiction | reflexivity].
  - rewrite (Resolve_deploy_prefix _ _ Hp).
    destruct (Nat.eqb _ 3); discriminate.
  - intros tasks. now rewrite !(Resolve_deploy_prefix _ _ Hp).
  - intros event channel env Hplain. now apply handleMessageEvent_plain.
Qed.

Lemma deploy_resolution_witness :
  Resolve sample_config "Deploy Payments PROD" = Deploy "Payments" "PROD" /\
  Resolve sample_config "deploy payments" = InvalidDeployFormat /\
  Resolve sample_config "deploy a b c" = InvalidDeployFormat.
Proof.
  split; [|split].
  - exact (proj1 (deploy_resolution sample_config "Deploy Payments PROD" eq_refl)
             "Deploy" "Payments" "PROD" eq_refl).
  - refine (proj1 (proj2 (deploy_resolution sample_config "deploy payments" eq_refl)) _).
    vm_compute. discriminate.
  - refine (proj1 (proj2 (deploy_resolution sample_config "deploy a b c" eq_refl)) _).
    vm_compute. discriminate.
Defined.

(** ** The list command *)

(** The text is compared as it comes: a message with a leading blank
    lower-cases and trims to ["list"], and is answered as unknown. *)
Lemma list_not_trimmed :
  ToLower (TrimSpace " list") = "list" /\
  Resolve sample_config " list" = Unknown /\
  trace (handleMessageEvent (message_event " list" "C1") (answering 200 []) sample_config)
    = [PostMessage "C1" unknown_reply].
Proof. repeat split; reflexivity. Qed.

(** C2 (amended).  The resolver produces [ListCommands] exactly when the
    lower-cased message text, untrimmed, equals ["list"] or
    ["list command"]; the handler runs the resolved intent. *)
Theorem list_resolution {uni : Unicode} (config : Config) (messageText : string) :
  (Resolve config messageText = ListCommands <->
   ToLower messageText = "list" \/ ToLower messageText = "list command") /\
  (forall event channel env,
      plain_message event messageText channel ->
      handleMessageEvent event env config =
        perform channel (Resolve config messageText) env config).
Proof.
  split; [|intros; now apply handleMessageEvent_plain].
  unfold Resolve.
  destruct (String.eqb_spec (ToLower messageText) "list command") as [Hlc|Hlc];
    destruct (String.eqb_spec (ToLower messageText) "list") as [Hl|Hl]; simpl;
    try (split; [intros _; tauto | reflexivity]).
  split; [|tauto].
  destruct (HasPrefix _ _); [destruct (Nat.eqb _ _)|destruct (_ !! _)]; discriminate.
Qed.

Lemma list_resolution_witness :
  Resolve sample_config "LIST" = ListCommands /\
  Resolve sample_config "List Command" = ListCommands.
Proof.
  split.
  - apply (proj1 (list_resolution sample_config "LIST")). left. reflexivity.
  - apply (proj1 (list_resolution sample_config "List Command")). right. reflexivity.
Defined.

(** ** The request of a static task *)

Example executeTask_lowercase_post_is_get :
  task_request (mkTask "t" "http://x" "post" "u" "t") = mkRequest "GET" "http://x" [] /\
  task_request (mkTask "t" "http://x" "PUT" "u" "t") = mkRequest "GET" "http://x" [] /\
  task_request (mkTask "t" "http://x" "" "u" "t") = mkRequest "GET" "http://x" [] /\
  task_request (mkTask "t" "http://x/restart" "POST" "u" "t")
    = mkRequest "POST" "http://x/restart" [("Authorization", "Basic dTp0")].
Proof. repeat split; reflexivity. Qed.

Lemma executeTask_calls (task : Task) (env : Env) (cfg : Config) (req : Request) :
  In (HttpCall req) (trace (executeTask task env cfg)) ->
  req = task_request task /\ url_parses env (URL task) = true.
Proof.
  rewrite executeTask_run.
  destruct (url_parses env (URL task)); simpl.
  - intros [[= <-]|[]]. now split.
  - destruct (_ && _); simpl; intros [].
Qed.

(** C3.  Every request [executeTask] sends goes to the task's URL; it is
    a POST exactly when the method field is the string ["POST"] and a GET
    for every other value; it carries the header
    [Authorization: Basic base64(user:token)] exactly when the method is
    ["POST"] and user and token are both non-empty, and no header
    otherwise, in particular none on a GET.  A request is sent whenever
    the URL is accepted. *)
Theorem executeTask_request (task : Task) (env : Env) (cfg : Config) :
  (forall req,
      In (HttpCall req) (trace (executeTask task env cfg)) ->
      req_url req = URL task /\
      (req_method req = "POST" <-> Method task = "POST") /\
      (req_method req = "GET" <-> Method task <> "POST") /\
      (req_header req =
         [("Authorization",
           "Basic " +:+ Base64.EncodeToString (User task +:+ ":" +:+ Token task))]
       <-> Method task = "POST" /\ User task <> "" /\ Token task <> "") /\
      (req_header req = [] <->
       ~ (Method task = "POST" /\ User task <> "" /\ Token task <> "")) /\
      (req_method req = "GET" -> req_header req = [])) /\
  (url_parses env (URL task) = true ->
   trace (executeTask task env cfg) = [HttpCall (task_request task)]).
Proof.
  split.
  - intros req Hin. apply executeTask_calls in Hin as [-> _].
    unfold task_request, wants_auth, basic_auth.
    destruct (String.eqb_spec (Method task) "POST") as [Hm|Hm]; simpl.
    + destruct (String.eqb_spec (User task) "") as [Hu|Hu];
        destruct (String.eqb_spec (Token task) "") as [Ht|Ht]; simpl;
        repeat split; try tauto; try discriminate; try congruence;
        intros; try tauto; try discriminate.
    + repeat split; try tauto; try discriminate; try congruence;
        intros; try tauto; try discriminate.
  - intros Hurl. rewrite executeTask_run, Hurl. reflexivity.
Qed.

Lemma executeTask_request_witness :
  trace (executeTask (mkTask "Restart API" "http://x/restart" "POST" "u" "t")
           (answering 200 []) sample_config)
  = [HttpCall (mkRequest "POST" "http://x/restart" [("Authorization", "Basic dTp0")])].
Proof.
  exact (proj2 (executeTask_request
                  (mkTask "Restart API" "http://x/restart" "POST" "u" "t")
                  (answering 200 []) sample_config) eq_refl).
Defined.

(** ** The deployment request *)




(** ** Outcome of the executors *)

(** C5.  With method ["POST"], both credentials set and a URL that
    [http.NewRequest] refuses, [executeTask] adds the header to the [nil]
    request before it looks at the error: the run panics and returns no
    boolean.  The same task without credentials, and the deployment
    executor on the same URL, return [false]. *)
Theorem executeTask_nil_request_panics :
  executeTask broken_task (answering 200 []) sample_config
    = mkResult [] sample_config
        (Panic "invalid memory address or nil pointer dereference") /\
  executeTask (mkTask "Restart API" (URL broken_task) "POST" "" "")
    (answering 200 []) sample_config
    = mkResult [] sample_config (Done false) /\
  executeJenkinsJob (URL broken_task) "u" "t" (answering 200 []) sample_config
    = mkResult [] sample_config (Done false).
Proof. repeat split; reflexivity. Qed.

(** The panic is the only way [executeTask] ends without a boolean. *)
Lemma executeTask_panics_iff (task : Task) (env : Env) (cfg : Config) :
  (exists msg, outcome (executeTask task env cfg) = Panic msg) <->
  url_parses env (URL task) = false /\ Method task = "POST" /\
  User task <> "" /\ Token task <> "".
Proof.
  rewrite executeTask_run. unfold wants_auth.
  destruct (url_parses env (URL task)); simpl.
  - split; [intros [msg H]; discriminate | intros [H _]; discriminate].
  - destruct (String.eqb_spec (Method task) "POST") as [Hm|Hm];
      destruct (String.eqb_spec (User task) "") as [Hu|Hu];
      destruct (String.eqb_spec (Token task) "") as [Ht|Ht]; simpl;
      (split; [intros [msg H]; try discriminate; tauto | ]);
      intros (_ & ? & ? & ?); try tauto; eauto.
Qed.

(** C6.  Both executors return [true] exactly when a request was sent and
    answered with a status code from 200 to 299; whenever a request was
    sent, either returns the same function of the answer, which is [false]
    for a transport error and for every status of 300 or more (4xx and
    5xx alike). *)
Theorem status_classification (env : Env) (cfg : Config) :
  (forall task,
      outcome (executeTask task env cfg) = Done true <->
      exists req code,
        trace (executeTask task env cfg) = [HttpCall req] /\
        round_trip env req = Status code /\ (200 <= code <= 299)%Z) /\
  (forall url user token,
      outcome (executeJenkinsJob url user token env cfg) = Done true <->
      exists req code,
        trace (executeJenkinsJob url user token env cfg) = [HttpCall req] /\
        round_trip env req = Status code /\ (200 <= code <= 299)%Z) /\
  (forall task req,
      In (HttpCall req) (trace (executeTask task env cfg)) ->
      outcome (executeTask task env cfg) = Done (status_success (round_trip env req))) /\
  (forall url user token req,
      In (HttpCall req) (trace (executeJenkinsJob url user token env cfg)) ->
      outcome (executeJenkinsJob url user token env cfg)
        = Done (status_success (round_trip env req))) /\
  status_success TransportError = false /\
  (forall code, (300 <= code)%Z -> status_success (Status code) = false) /\
  (forall code, status_success (Status code) = true <-> (200 <= code <= 299)%Z).
Proof.
  assert (Hcode : forall code,
             status_success (Status code) = true <-> (200 <= code <= 299)%Z).
  { intros code. simpl. rewrite andb_true_iff, Z.leb_le, Z.ltb_lt. lia. }
  assert (Hresp : forall resp,
             status_success resp = true <->
             exists code, resp = Status code /\ (200 <= code <= 299)%Z).
  { intros [|code].
    - split; [discriminate | intros (c & H & _); discriminate].
    - rewrite Hcode. split; [eauto | intros (c & [= <-] & H); exact H]. }
  split; [|split; [|split; [|split; [|split; [|split]]]]].
  - intros task. rewrite executeTask_run.
    destruct (url_parses env (URL task)); simpl.
    + split.
      * intros [= H]. apply Hresp in H as (code & H1 & H2). eauto.
      * intros (req & code & [= <-] & H1 & H2). f_equal. apply Hresp. eauto.
    + destruct (_ && _); simpl;
        (split; [discriminate | intros (req & code & H & _); discriminate]).
  - intros url user token. rewrite executeJenkinsJob_run.
    destruct (url_parses env url); simpl.
    + split.
      * intros [= H]. apply Hresp in H as (code & H1 & H2). eauto.
      * intros (req & code & [= <-] & H1 & H2). f_equal. apply Hresp. eauto.
    + split; [discriminate | intros (req & code & H & _); discriminate].
  - intros task req. rewrite executeTask_run.
    destruct (url_parses env (URL task)); simpl.
    + intros [[= <-]|[]]. reflexivity.
    + destruct (_ && _); simpl; intros [].
  - intros url user token req. rewrite executeJenkinsJob_run.
    destruct (url_parses env url); simpl.
    + intros [[= <-]|[]]. reflexivity.
    + intros [].
  - reflexivity.
  - intros code Hc. simpl. apply andb_false_iff. right. apply Z.ltb_ge. lia.
  - exact Hcode.
Qed.

Lemma status_classification_witness :
  outcome (executeTask (mkTask "Health" "http://x/health" "GET" "" "")
             (answering 204 []) sample_config) = Done true /\
  outcome (executeJenkinsJob "http://j/job" "ci" "secret"
             (answering 204 []) sample_config) = Done true.
Proof.
  split.
  - apply (proj1 (status_classification (answering 204 []) sample_config)).
    eexists _, 204%Z. split; [reflexivity | split; [reflexivity | lia]].
  - apply (proj1 (proj2 (status_classification (answering 204 []) sample_config))).
    eexists _, 204%Z. split; [reflexivity | split; [reflexivity | lia]].
Defined.

(** ** Loading the configuration *)

(** C7.  [loadConfig] returns an error exactly when the file cannot be
    opened, and then no configuration.  When the file opens, the result is
    the configuration as the decoder left it, a zero value filled as far
    as decoding went, and no error, also when the decoder reports
    one. *)
Theorem loadConfig_errors (os_Open : string -> OpenResult)
    (json_Unmarshal : string -> Config -> Config * option string)
    (filePath : string) :
  (forall err,
      snd (loadConfig os_Open json_Unmarshal filePath) = Some err <->
      os_Open filePath = OpenError err) /\
  (forall err,
      os_Open filePath = OpenError err ->
      loadConfig os_Open json_Unmarshal filePath = (None, Some err)) /\
  (forall data,
      os_Open filePath = Opened data ->
      loadConfig os_Open json_Unmarshal filePath
        = (Some (fst (json_Unmarshal data zeroConfig)), None)) /\
  (forall data config err,
      os_Open filePath = Opened data ->
      json_Unmarshal data zeroConfig = (config, Some err) ->
      loadConfig os_Open json_Unmarshal filePath = (Some config, None)).
Proof.
  unfold loadConfig.
  split; [|split; [|split]].
  - intros err. destruct (os_Open filePath) as [e|data]; simpl.
    + split; congruence.
    + destruct (json_Unmarshal data zeroConfig). simpl. split; discriminate.
  - intros err ->. reflexivity.
  - intros data ->. now destruct (json_Unmarshal data zeroConfig).
  - intros data config err -> ->. reflexivity.
Qed.

Lemma loadConfig_errors_witness :
  loadConfig one_file_fs failing_decoder "config.json" = (Some zeroConfig, None) /\
  loadConfig one_file_fs failing_decoder "missing.json"
    = (None, Some "open: no such file or directory").
Proof.
  split.
  - exact (proj2 (proj2 (proj2
             (loadConfig_errors one_file_fs failing_decoder "config.json")))
             "slack_token: xoxb" zeroConfig _ eq_refl eq_refl).
  - exact (proj1 (proj2
             (loadConfig_errors one_file_fs failing_decoder "missing.json"))
             _ eq_refl).
Defined.

(** ** One event, one answer *)

(** Events of bots, events with a subtype and events that are not
    messages are dropped without any action. *)
Lemma filtered_event_silent {uni : Unicode} event evt env cfg :
  event !! "event" = Some (JObject evt) ->
  is_nil (index evt "bot_id") = false \/
  is_nil (index evt "subtype") = false \/
  index evt "type" <> JString "message" ->
  handleMessageEvent event env cfg = mkResult [] cfg (Done tt).
Proof.
  intros Hevt Hfilter.
  unfold handleMessageEvent, index at 1 2. rewrite Hevt. simpl.
  unfold assert_object, bind at 1, ret at 1. simpl.
  destruct (is_nil (index evt "bot_id")) eqn:Hbot; simpl; [|reflexivity].
  destruct (iface_eq_string (index evt "type") "message") eqn:Htype; simpl;
    [|reflexivity].
  destruct (is_nil (index evt "subtype")) eqn:Hsub; simpl; [|reflexivity].
  exfalso. destruct Hfilter as [H|[H|H]]; try discriminate.
  apply H. unfold iface_eq_string in Htype.
  destruct (index evt "type"); try discriminate.
  apply String.eqb_eq in Htype. now subst.
Qed.

(** An envelope without a nested event is dropped as well. *)
Lemma missing_event_silent {uni : Unicode} event env cfg :
  is_nil (index event "event") = true ->
  handleMessageEvent event env cfg = mkResult [] cfg (Done tt).
Proof. intros H. unfold handleMessageEvent. now rewrite H. Qed.

(** A plain message is answered by exactly one reply, after at most one
    HTTP call, unless the run panics; it panics only in [executeTask], and
    then nothing has been sent. *)
Lemma plain_message_actions {uni : Unicode} event text channel env cfg :
  plain_message event text channel ->
  let r := handleMessageEvent event env cfg in
  match outcome r with
  | Done _ =>
      (exists reply, trace r = [PostMessage channel reply]) \/
      (exists req reply, trace r = [HttpCall req; PostMessage channel reply])
  | Panic _ =>
      trace r = [] /\
      exists task,
        Resolve cfg text = StaticTask task /\
        url_parses env (URL task) = false /\
        Method task = "POST" /\ wants_auth task = true
  end.
Proof.
  intros Hplain. cbv zeta. rewrite (handleMessageEvent_plain _ _ _ _ _ Hplain).
  destruct (Resolve cfg text) as [|service envName| |task|] eqn:HR.
  - rewrite perform_ListCommands. simpl. eauto.
  - rewrite perform_Deploy. cbv zeta.
    destruct (url_parses env _); simpl; eauto.
  - simpl. eauto.
  - rewrite perform_StaticTask.
    destruct (url_parses env (URL task)) eqn:Hurl; simpl; [eauto|].
    destruct (String.eqb_spec (Method task) "POST") as [Hm|Hm]; simpl; [|eauto].
    destruct (wants_auth task) eqn:Hauth; simpl; [|eauto].
    split; [reflexivity|]. exists task. auto.
  - simpl. eauto.
Qed.

(** C8.  A plain message of a human that names a task with method
    ["POST"], credentials and a URL that [http.NewRequest] refuses is not
    answered at all: [executeTask] panics before any call, and no reply is
    posted. *)
Theorem plain_message_without_reply :
  Resolve broken_config "restart-api" = StaticTask broken_task /\
  handleMessageEvent (message_event "restart-api" "C1") (answering 200 []) broken_config
    = mkResult [] broken_config
        (Panic "invalid memory address or nil pointer dereference") /\
  replies (trace (handleMessageEvent (message_event "restart-api" "C1")
                    (answering 200 []) broken_config)) = 0 /\
  http_calls (trace (handleMessageEvent (message_event "restart-api" "C1")
                       (answering 200 []) broken_config)) = 0.
Proof. repeat split; reflexivity. Qed.

(** ** Listing the commands *)

(** Two runs on the same configuration that differ only in the random
    choices of the runtime list the two commands in different orders. *)
Lemma list_order_varies :
  trace (handleMessageEvent (message_event "list" "C1") (answering 200 []) sample_config)
    = [PostMessage "C1"
         ("Here are the available commands:" +:+ newline +:+
          "- restart-api" +:+ newline +:+ "- health" +:+ newline)] /\
  trace (handleMessageEvent (message_event "list" "C1") (answering 200 [1]) sample_config)
    = [PostMessage "C1"
         ("Here are the available commands:" +:+ newline +:+
          "- health" +:+ newline +:+ "- restart-api" +:+ newline)].
Proof. split; reflexivity. Qed.

(** C9 (amended).  Answering [ListCommands] leaves the configuration as
    it was, and two consecutive runs each post one reply that lists every
    key of the task table exactly once: the same set of commands.  The
    order of the lines is the iteration order of the map, which is the
    runtime's choice and can differ between the runs; the texts agree when
    the choices do. *)
Theorem list_commands_same_set {uni : Unicode} (config : Config) (event : gmap string JSON)
    (text channel : string) (env1 env2 : Env) :
  plain_message event text channel ->
  Resolve config text = ListCommands ->
  let r1 := handleMessageEvent event env1 config in
  let r2 := handleMessageEvent event env2 (store r1) in
  store r1 = config /\ store r2 = config /\
  exists keys1 keys2,
    trace r1 = [PostMessage channel (list_reply keys1)] /\
    trace r2 = [PostMessage channel (list_reply keys2)] /\
    Permutation keys1 keys2 /\
    NoDup keys1 /\
    (forall key, key ∈ keys1 <-> is_Some (Tasks config !! key)) /\
    (map_choice env1 = map_choice env2 -> trace r1 = trace r2).
Proof.
  intros Hplain HR r1 r2. subst r1 r2.
  rewrite (handleMessageEvent_plain _ _ _ env1 _ Hplain), HR, perform_ListCommands.
  simpl.
  rewrite (handleMessageEvent_plain _ _ _ env2 _ Hplain), HR, perform_ListCommands.
  simpl. split; [reflexivity|]. split; [reflexivity|].
  exists (arrange (map_choice env1) (map_keys (Tasks config))),
         (arrange (map_choice env2) (map_keys (Tasks config))).
  split; [reflexivity|]. split; [reflexivity|].
  split; [|split; [|split]].
  - rewrite !arrange_perm. reflexivity.
  - rewrite arrange_perm. apply map_keys_NoDup.
  - intros key. rewrite arrange_perm. apply map_keys_lookup.
  - intros ->. reflexivity.
Qed.

Lemma list_commands_same_set_witness :
  store (handleMessageEvent (message_event "list" "C1") (answering 200 []) sample_config)
    = sample_config.
Proof.
  exact (proj1 (list_commands_same_set sample_config (message_event "list" "C1")
                  "list" "C1" (answering 200 []) (answering 200 [1])
                  (message_event_plain _ _) eq_refl)).
Defined.

(** ** Keys with upper-case letters *)




(** A key of ASCII bytes with one of ['A'..'Z'] is such a key, whatever
    the Unicode map. *)
Lemma ASCII_upper_changes `{Unicode} (key : string) :
  isASCII key = true -> has_upper key = true -> ToLower key <> key.
Proof.
  intros Hascii Hup Heq. rewrite (ToLower_ASCII _ Hascii) in Heq.
  rewrite <- Heq, lowerASCII_no_upper in Hup. discriminate.
Qed.

(** So is every key with one of ['A'..'Z'], ASCII or not, lower-casing
    making none of these bytes. *)
Lemma capital_byte_changes `{Unicode} (key : string) :
  lower_no_capital -> has_upper key = true -> ToLower key <> key.
Proof.
  intros Hcap Hup Heq. rewrite <- Heq, Hcap in Hup. discriminate.
Qed.

(** With Go's map, which sends the capital E with an acute accent to the
    small one, the key [cafE] so accented is such a key, and the message
    [CAFE] looks up the key [cafe]; and with U+0130 sent to [i], the
    dotted [LIST] lists. *)
Example accented_capital_changes `{Unicode} :
  Map_unicode_ToLower mixed_cafE = lower_cafe -> ToLower mixed_cafE <> mixed_cafE.
Proof.
  intros Hmap.
  assert (Hlow : ToLower mixed_cafE = lower_cafe) by exact Hmap.
  rewrite Hlow. discriminate.
Qed.

Example accented_key_looked_up `{Unicode} (config : Config) (task : Task) :
  Map_unicode_ToLower upper_CAFE = lower_cafe ->
  Tasks config !! lower_cafe = Some task ->
  Resolve config upper_CAFE = StaticTask task.
Proof.
  intros Hmap Hlook. unfold Resolve.
  assert (Hlow : ToLower upper_CAFE = lower_cafe) by exact Hmap.
  rewrite Hlow, Hlook. reflexivity.
Qed.

Example dotted_LIST_lists `{Unicode} (config : Config) :
  Map_unicode_ToLower dotted_LIST = "list" ->
  Resolve config dotted_LIST = ListCommands.
Proof.
  intros Hmap. unfold Resolve.
  assert (Hlow : ToLower dotted_LIST = "list") by exact Hmap.
  rewrite Hlow. reflexivity.
Qed.

(** * Further properties *)

(** ** Splitting on a single byte *)

Section SplitByte.

Variable c : ascii.
#[local] Abbreviation sep := (String c EmptyString).

Lemma HasPrefix_byte (s : string) :
  HasPrefix s sep = match s with String a _ => Ascii.eqb a c | EmptyString => false end.
Proof. destruct s as [|a s]; simpl; [reflexivity | apply andb_true_r]. Qed.

Lemma Index_byte_None (s : string) :
  Index s sep = None <-> has_byte c s = false.
Proof.
  induction s as [|a s IH].
  - simpl. tauto.
  - cbn [Index has_byte]. rewrite HasPrefix_byte.
    destruct (Ascii.eqb a c); simpl; [split; discriminate|].
    rewrite <- IH. destruct (Index s sep); simpl; split; congruence.
Qed.

Lemma Index_byte_app (a b : string) :
  has_byte c a = false -> Index (a +:+ sep +:+ b) sep = Some (String.length a).
Proof.
  induction a as [|x a IH]; intros Ha.
  - rewrite append_empty, append_String.
    cbn [Index]. rewrite HasPrefix_byte, Ascii.eqb_refl. reflexivity.
  - simpl in Ha. apply orb_false_iff in Ha as [Hx Ha].
    rewrite append_String. cbn [Index]. rewrite HasPrefix_byte, Hx, (IH Ha).
    reflexivity.
Qed.

Lemma str_take_length_app (a b : string) : str_take (String.length a) (a +:+ b) = a.
Proof.
  induction a as [|x a IH]; [now destruct b|].
  rewrite append_String. simpl. now rewrite IH.
Qed.

Lemma count_byte_app (a b : string) :
  count_byte c (a +:+ b) = count_byte c a + count_byte c b.
Proof.
  induction a as [|x a IH]; [reflexivity|].
  rewrite append_String. simpl. rewrite IH. lia.
Qed.

Lemma count_byte_zero (s : string) : has_byte c s = false -> count_byte c s = 0.
Proof.
  induction s as [|a s IH]; simpl; [reflexivity|].
  intros H. apply orb_false_iff in H as [-> H]. now rewrite IH.
Qed.

(** As many tokens as separators, and one more. *)
Lemma genSplit_byte_length (fuel : nat) (s : string) :
  String.length s <= fuel ->
  length (genSplit fuel s sep) = S (count_byte c s).
Proof.
  revert s. induction fuel as [|fuel IH]; intros s Hlen.
  - destruct s; simpl in *; [reflexivity | lia].
  - cbn [genSplit]. destruct (Index s sep) as [m|] eqn:Hm.
    + pose proof (Index_split _ _ _ Hm) as Hs.
      assert (Hfree : has_byte c (str_take m s) = false).
      { apply Index_byte_None. apply Index_take_None; [discriminate | exact Hm]. }
      pose proof (f_equal String.length Hs) as Hl.
      rewrite !length_append in Hl. simpl in Hl.
      cbn [length]. rewrite IH by (simpl; lia).
      rewrite Hs at 2. rewrite !count_byte_app, (count_byte_zero _ Hfree).
      simpl. rewrite Ascii.eqb_refl. simpl. reflexivity.
    + apply Index_byte_None in Hm. now rewrite (count_byte_zero _ Hm).
Qed.

Lemma Join_cons (x y : string) (rest : list string) (sp : string) :
  Join (x :: y :: rest) sp = x +:+ sp +:+ Join (y :: rest) sp.
Proof. reflexivity. Qed.

Lemma append_assoc (a b d : string) : a +:+ b +:+ d = (a +:+ b) +:+ d.
Proof.
  induction a as [|x a IH]; [reflexivity|].
  rewrite !append_String. now rewrite IH.
Qed.

(** Tokens without the separator, joined and split again, come back. *)
Lemma genSplit_byte_Join (tokens : list string) (fuel : nat) :
  tokens <> [] ->
  Forall (fun t => has_byte c t = false) tokens ->
  String.length (Join tokens sep) <= fuel ->
  genSplit fuel (Join tokens sep) sep = tokens.
Proof.
  revert fuel. induction tokens as [|x rest IH]; intros fuel Hne Hfree Hlen;
    [contradiction|].
  inversion Hfree as [|? ? Hx Hrest]; subst.
  destruct rest as [|y rest].
  - simpl. apply Index_byte_None in Hx.
    destruct fuel; simpl; [reflexivity | now rewrite Hx].
  - rewrite Join_cons in *. rewrite !length_append in Hlen.
    change (String.length sep) with 1 in Hlen.
    destruct fuel as [|fuel]; [lia|].
    cbn [genSplit]. rewrite (Index_byte_app _ _ Hx).
    rewrite str_take_length_app.
    replace (String.length x + String.length sep) with (String.length (x +:+ sep))
      by (rewrite length_append; reflexivity).
    rewrite append_assoc, str_drop_length_app.
    f_equal. apply IH; [discriminate | exact Hrest | lia].
Qed.

End SplitByte.

(** ** Lower-casing and blanks *)

(** Enough rounds for every blank give the same tokens. *)
Lemma genSplit_enough (c : ascii) (fuel1 fuel2 : nat) (s : string) :
  count_byte c s <= fuel1 -> count_byte c s <= fuel2 ->
  genSplit fuel1 s (String c EmptyString) = genSplit fuel2 s (String c EmptyString).
Proof.
  revert fuel2 s. induction fuel1 as [|fuel1 IH]; intros fuel2 s H1 H2.
  - assert (Hnone : Index s (String c EmptyString) = None).
    { apply Index_byte_None. destruct (has_byte c s) eqn:Hb; [|reflexivity].
      exfalso. clear -H1 Hb. induction s as [|a s IHs]; simpl in *; [discriminate|].
      destruct (Ascii.eqb a c); simpl in *; [lia | auto with arith]. }
    destruct fuel2; simpl; [reflexivity | now rewrite Hnone].
  - cbn [genSplit]. destruct (Index s (String c EmptyString)) as [m|] eqn:Hm.
    + pose proof (Index_split _ _ _ Hm) as Hs.
      assert (Hfree : has_byte c (str_take m s) = false).
      { apply Index_byte_None. apply Index_take_None; [discriminate | exact Hm]. }
      assert (Hcount : count_byte c s
                       = S (count_byte c (str_drop (m + String.length (String c EmptyString)) s))).
      { rewrite Hs at 1. rewrite !count_byte_app, (count_byte_zero _ _ Hfree).
        simpl. now rewrite Ascii.eqb_refl. }
      destruct fuel2 as [|fuel2]; [lia|].
      cbn [genSplit]. rewrite Hm. f_equal. apply IH; lia.
    + destruct fuel2; simpl; [reflexivity | now rewrite Hm].
Qed.

Lemma count_byte_le_length (c : ascii) (s : string) :
  count_byte c s <= String.length s.
Proof.
  induction s as [|a s IH]; simpl; [lia|]. destruct (Ascii.eqb a c); lia.
Qed.

Section KeepsBlanks.

Context `{Unicode}.
Hypothesis Hblanks : keeps_blanks.

(** Lower-casing moves no blank: it commutes with splitting. *)
Lemma genSplit_ToLower (fuel : nat) (s : string) :
  count_byte " " s <= fuel ->
  genSplit fuel (ToLower s) " " = map ToLower (genSplit fuel s " ").
Proof.
  destruct Hblanks as [Happ Hfree].
  revert s. induction fuel as [|fuel IH]; intros s Hcount; [reflexivity|].
  cbn [genSplit]. destruct (Index s " ") as [m|] eqn:Hm.
  - pose proof (Index_split _ _ _ Hm) as Hs.
    assert (Ha : has_byte " " (str_take m s) = false).
    { apply Index_byte_None. apply Index_take_None; [discriminate | exact Hm]. }
    remember (str_take m s) as a eqn:Heqa.
    remember (str_drop (m + String.length " ") s) as b eqn:Heqb.
    assert (Hb : count_byte " " b <= fuel).
    { rewrite Hs, !count_byte_app, (count_byte_zero _ _ Ha) in Hcount.
      simpl in Hcount. lia. }
    assert (HL : ToLower s = ToLower a +:+ " " +:+ ToLower b)
      by (rewrite Hs; apply Happ).
    assert (Hla : has_byte " " (ToLower a) = false) by (now rewrite Hfree).
    rewrite HL, (Index_byte_app _ _ _ Hla), str_take_length_app.
    replace (String.length (ToLower a) + String.length " ")
      with (String.length (ToLower a +:+ " "))
      by (rewrite length_append; reflexivity).
    rewrite append_assoc, str_drop_length_app.
    cbn [map]. f_equal. now apply IH.
  - assert (Hnone : Index (ToLower s) " " = None).
    { apply Index_byte_None. rewrite Hfree. now apply Index_byte_None. }
    now rewrite Hnone.
Qed.

Lemma count_blank_ToLower (s : string) :
  count_byte " " (ToLower s) = count_byte " " s.
Proof.
  pose (fuel := String.length s + String.length (ToLower s)).
  pose proof (genSplit_ToLower fuel s) as Heq.
  pose proof (count_byte_le_length " " s).
  specialize (Heq ltac:(unfold fuel; lia)).
  apply (f_equal (@length string)) in Heq.
  rewrite length_map in Heq.
  rewrite !genSplit_byte_length in Heq by (unfold fuel; lia).
  lia.
Qed.

Lemma Split_ToLower (s : string) :
  Split (ToLower s) " " = map ToLower (Split s " ").
Proof.
  unfold Split.
  pose proof (count_byte_le_length " " s).
  pose proof (count_byte_le_length " " (ToLower s)).
  rewrite (genSplit_enough " " _ (String.length s + String.length (ToLower s)))
    by lia.
  rewrite genSplit_ToLower by lia.
  f_equal. apply genSplit_enough; lia.
Qed.

End KeepsBlanks.

(** The first token of a text is fixed by a prefix that ends in the
    separator. *)
Lemma HasPrefix_token (c : ascii) (a b p : string) :
  has_byte c a = false -> has_byte c p = false ->
  HasPrefix (a +:+ String c EmptyString +:+ b) (p +:+ String c EmptyString) = true ->
  a = p.
Proof.
  revert a. induction p as [|y p IH]; intros a Ha Hp H.
  - destruct a as [|x a]; [reflexivity|].
    rewrite append_empty, append_String, HasPrefix_byte in H.
    simpl in Ha. rewrite H in Ha. discriminate.
  - simpl in Hp. apply orb_false_iff in Hp as [Hy Hp].
    destruct a as [|x a].
    + rewrite append_empty, !append_String in H. simpl in H.
      apply andb_true_iff in H as [H _]. rewrite Ascii.eqb_sym, H in Hy.
      discriminate.
    + simpl in Ha. apply orb_false_iff in Ha as [Hx Ha].
      rewrite !append_String in H. simpl in H.
      apply andb_true_iff in H as [Hxy H]. apply Ascii.eqb_eq in Hxy. subst y.
      f_equal. now apply IH.
Qed.

(** ** The grammar of the deploy command *)

(** X1.  A message resolves to [Deploy service env] exactly when it reads
    [cmd service env], separated by single blanks, where [cmd] is
    ["deploy"] in any casing and neither argument holds a blank; the
    arguments may be empty.  That lower-casing keeps the blanks is the
    fact of Go's library used. *)
Theorem deploy_grammar {uni : Unicode} (config : Config) (text service envName : string) :
  keeps_blanks ->
  Resolve config text = Deploy service envName <->
  exists cmd,
    text = cmd +:+ " " +:+ service +:+ " " +:+ envName /\
    ToLower cmd = "deploy" /\
    has_byte " " service = false /\ has_byte " " envName = false.
Proof.
  intros [Happ Hblank].
  split.
  - unfold Resolve. destruct (_ || _); [discriminate|].
    destruct (HasPrefix (ToLower text) "deploy ") eqn:Hp;
      [|destruct (_ !! _); discriminate].
    destruct (Nat.eqb_spec (length (Split text " ")) 3) as [Hlen|]; [|discriminate].
    pose proof (Split_Join text " ") as Hjoin.
    pose proof (Split_tokens text " ") as Htok.
    destruct (Split text " ") as [|cmd [|s [|e [|? ?]]]]; try discriminate.
    intros [= <- <-]. exists cmd.
    assert (Hfree : forall t, In t [cmd; s; e] -> has_byte " " t = false).
    { intros t Hin. apply Index_byte_None, Htok; [discriminate | exact Hin]. }
    rewrite !Join_cons in Hjoin. cbn [Join] in Hjoin.
    split; [now symmetry|].
    split; [|split; apply Hfree; simpl; auto].
    rewrite <- Hjoin, Happ in Hp.
    apply (HasPrefix_token " " (ToLower cmd) (ToLower (s +:+ " " +:+ e)) "deploy").
    + rewrite Hblank. apply Hfree. simpl. auto.
    + reflexivity.
    + exact Hp.
  - intros (cmd & -> & Hcmd & Hs & He).
    assert (Hc : has_byte " " cmd = false)
      by (rewrite <- Hblank, Hcmd; reflexivity).
    assert (Hlow : exists rest,
               ToLower (cmd +:+ " " +:+ service +:+ " " +:+ envName)
               = "deploy " +:+ rest).
    { exists (ToLower (service +:+ " " +:+ envName)).
      rewrite Happ, Hcmd. reflexivity. }
    unfold Resolve.
    rewrite (proj2 (HasPrefix_app _ _) Hlow).
    destruct Hlow as [rest ->].
    replace (Split (cmd +:+ " " +:+ service +:+ " " +:+ envName) " ")
      with [cmd; service; envName].
    + reflexivity.
    + symmetry. apply (genSplit_byte_Join " " [cmd; service; envName]).
      * discriminate.
      * repeat constructor; assumption.
      * apply Nat.le_refl.
Qed.

Lemma deploy_grammar_witness :
  Resolve sample_config "DePloy Payments PROD" = Deploy "Payments" "PROD".
Proof.
  apply (proj2 (deploy_grammar sample_config "DePloy Payments PROD" "Payments" "PROD"
                  byte_lower_keeps_blanks)).
  exists "DePloy". repeat split; reflexivity.
Defined.

(** X2.  A message is refused as [InvalidDeployFormat] exactly when its
    lower-cased text starts with ["deploy "] and it does not hold exactly
    two blanks (a trailing or a doubled blank counts). *)
Theorem invalid_deploy_blanks {uni : Unicode} (config : Config) (text : string) :
  Resolve config text = InvalidDeployFormat <->
  HasPrefix (ToLower text) "deploy " = true /\ count_byte " " text <> 2.
Proof.
  assert (Hlen : length (Split text " ") = S (count_byte " " text))
    by (apply genSplit_byte_length, Nat.le_refl).
  split.
  - unfold Resolve. destruct (_ || _); [discriminate|].
    destruct (HasPrefix (ToLower text) "deploy ");
      [|destruct (_ !! _); discriminate].
    destruct (Nat.eqb_spec (length (Split text " ")) 3) as [|Hne]; [discriminate|].
    intros _. split; [reflexivity | lia].
  - intros [Hp Hcount]. rewrite (Resolve_deploy_prefix _ _ Hp).
    destruct (Nat.eqb_spec (length (Split text " ")) 3); [lia | reflexivity].
Qed.

(** X3.  Commands are recognised whatever their casing: lower-casing a
    message lower-cases the arguments of a deployment and changes nothing
    else of its resolution.  That lower-casing keeps the blanks and
    leaves its results alone are the facts of Go's library used. *)
Theorem Resolve_ToLower {uni : Unicode} (config : Config) (text : string) :
  keeps_blanks -> lower_idempotent ->
  Resolve config (ToLower text) = lower_intent (Resolve config text).
Proof.
  intros Hblanks Hidem.
  unfold Resolve. rewrite Hidem, (Split_ToLower Hblanks).
  destruct (_ || _); [reflexivity|].
  destruct (HasPrefix _ _).
  - rewrite length_map.
    destruct (Nat.eqb _ 3); [|reflexivity].
    simpl. f_equal; apply (map_nth ToLower _ "").
  - destruct (_ !! _); reflexivity.
Qed.

Lemma Resolve_ToLower_witness :
  Resolve sample_config (ToLower "Deploy Payments PROD") = Deploy "payments" "prod".
Proof.
  rewrite (Resolve_ToLower sample_config "Deploy Payments PROD"
             byte_lower_keeps_blanks byte_lower_idempotent).
  reflexivity.
Defined.

(** ** Which tasks a message can reach *)

(** X4.  The task under [key] can be run by some message exactly when the
    key is its own lower-casing, is neither ["list"] nor ["list command"]
    and does not start with ["deploy "]: entries under other keys are
    listed but never executed.  That lower-casing leaves its results
    alone is the fact of Go's library used. *)
Theorem static_task_reachable {uni : Unicode} (config : Config) (key : string) (task : Task) :
  lower_idempotent ->
  (exists text, ToLower text = key /\ Resolve config text = StaticTask task) <->
  Tasks config !! key = Some task /\ ToLower key = key /\
  key <> "list" /\ key <> "list command" /\ HasPrefix key "deploy " = false.
Proof.
  intros Hidem. split.
  - intros (text & <- & HR). unfold Resolve in HR.
    destruct (String.eqb_spec (ToLower text) "list command") as [|Hlc];
      [discriminate|].
    destruct (String.eqb_spec (ToLower text) "list") as [|Hl]; [discriminate|].
    simpl in HR.
    destruct (HasPrefix (ToLower text) "deploy ");
      [destruct (Nat.eqb _ _); discriminate|].
    destruct (Tasks config !! ToLower text) as [t|]; [|discriminate].
    injection HR as ->.
    repeat split; auto.
  - intros (Hlook & Hfix & Hl & Hlc & Hp). exists key.
    split; [exact Hfix|].
    unfold Resolve. rewrite Hfix, Hp, Hlook.
    destruct (String.eqb_spec key "list command"); [contradiction|].
    destruct (String.eqb_spec key "list"); [contradiction|].
    reflexivity.
Qed.

Lemma static_task_reachable_witness :
  exists text,
    ToLower text = "health" /\
    Resolve sample_config text = StaticTask (mkTask "Health" "http://x/health" "GET" "" "").
Proof.
  apply (proj2 (static_task_reachable sample_config "health"
                  (mkTask "Health" "http://x/health" "GET" "" "")
                  byte_lower_idempotent)).
  repeat split; try reflexivity; discriminate.
Defined.

(** A key of ASCII bytes is its own lower-casing exactly when it has none
    of ['A'..'Z'], whatever the Unicode map. *)
Lemma ASCII_key_fixed `{Unicode} (key : string) :
  isASCII key = true -> (ToLower key = key <-> has_upper key = false).
Proof.
  intros Hascii. rewrite (ToLower_ASCII _ Hascii). split.
  - intros <-. apply lowerASCII_no_upper.
  - apply lowerASCII_fixed.
Qed.

(** ** Every envelope *)

Lemma index_object (m : gmap string JSON) (k : string) (fields : gmap string JSON) :
  index m k = JObject fields -> m !! k = Some (JObject fields).
Proof. unfold index. destruct (m !! k); simpl; [now intros -> | discriminate]. Qed.

Lemma iface_eq_string_true (v : JSON) (s : string) :
  iface_eq_string v s = true <-> v = JString s.
Proof.
  destruct v; simpl; try (split; discriminate).
  rewrite String.eqb_eq. split; [now intros -> | now intros [= ->]].
Qed.

(** The handler drops the event, panics before any action, or has a
    plain message in hand. *)
Lemma handleMessageEvent_cases {uni : Unicode} event env cfg :
  handleMessageEvent event env cfg = mkResult [] cfg (Done tt) \/
  (exists msg, handleMessageEvent event env cfg = mkResult [] cfg (Panic msg)) \/
  (exists text channel, plain_message event text channel).
Proof.
  remember (handleMessageEvent event env cfg) as r eqn:Hr.
  unfold handleMessageEvent in Hr.
  destruct (index event "event") as [| | | | |evt] eqn:Hevt; simpl in Hr;
    try (left; exact Hr);
    try (right; left; eexists; exact Hr).
  apply index_object in Hevt.
  unfold bind at 1, ret at 1 in Hr. simpl in Hr.
  destruct (is_nil (index evt "bot_id")) eqn:Hbot; simpl in Hr; [|left; exact Hr].
  destruct (iface_eq_string (index evt "type") "message") eqn:Htype; simpl in Hr;
    [|left; exact Hr].
  destruct (is_nil (index evt "subtype")) eqn:Hsub; simpl in Hr; [|left; exact Hr].
  apply iface_eq_string_true in Htype.
  destruct (index evt "text") as [| | |text| |] eqn:Htext;
    try (right; left; eexists; exact Hr).
  destruct (index evt "channel") as [| | |channel| |] eqn:Hchan;
    try (right; left; eexists; exact Hr).
  right. right. exists text, channel, evt. auto 10.
Qed.

Lemma perform_store channel intent env cfg :
  store (perform channel intent env cfg) = cfg.
Proof.
  destruct intent as [|service envName| |task|]; try reflexivity.
  - rewrite perform_Deploy. cbv zeta. destruct (url_parses env _); reflexivity.
  - rewrite perform_StaticTask.
    destruct (url_parses env _); [reflexivity|].
    destruct (_ && _); reflexivity.
Qed.


(** X5.  Whatever the envelope holds, one run of the handler leaves the
    configuration as it was and sends nothing, one reply, or one HTTP
    call followed by one reply: never two calls, never two replies, never
    a call without its reply, and nothing at all when it panics. *)
Theorem handler_sends_at_most_once {uni : Unicode} (event : gmap string JSON) (env : Env)
    (cfg : Config) :
  let r := handleMessageEvent event env cfg in
  store r = cfg /\
  (trace r = [] \/
   (exists channel reply,
       trace r = [PostMessage channel reply] /\ outcome r = Done tt) \/
   (exists req channel reply,
       trace r = [HttpCall req; PostMessage channel reply] /\ outcome r = Done tt)) /\
  http_calls (trace r) <= replies (trace r) /\ replies (trace r) <= 1.
Proof.
  cbv zeta.
  destruct (handleMessageEvent_cases event env cfg) as [H|[[msg H]|(text & channel & H)]].
  - rewrite H. simpl. unfold http_calls, replies. simpl. auto.
  - rewrite H. simpl. unfold http_calls, replies. simpl. auto.
  - pose proof (plain_message_actions _ _ _ env cfg H) as Hact. cbv zeta in Hact.
    split; [rewrite (handleMessageEvent_plain _ _ _ _ _ H); apply perform_store|].
    destruct (outcome (handleMessageEvent event env cfg)) as [[]|msg].
    + destruct Hact as [[reply Ht]|(req & reply & Ht)]; rewrite Ht;
        unfold http_calls, replies; simpl; split; eauto 10.
    + destruct Hact as [Ht _]. rewrite Ht. unfold http_calls, replies. simpl. auto.
Qed.

(** X6.  An envelope whose [event] is neither absent, [null] nor an
    object, and a message of a human whose [text] or [channel] is not a
    string, make the handler panic before it sends anything. *)
Theorem malformed_event_panics {uni : Unicode} (event : gmap string JSON) (env : Env) (cfg : Config) :
  (forall v,
      event !! "event" = Some v -> is_nil v = false ->
      (forall fields, v <> JObject fields) ->
      exists msg, handleMessageEvent event env cfg = mkResult [] cfg (Panic msg)) /\
  (forall evt,
      event !! "event" = Some (JObject evt) ->
      is_nil (index evt "bot_id") = true ->
      index evt "type" = JString "message" ->
      is_nil (index evt "subtype") = true ->
      (forall s, index evt "text" <> JString s) \/
      (forall s, index evt "channel" <> JString s) ->
      exists msg, handleMessageEvent event env cfg = mkResult [] cfg (Panic msg)).
Proof.
  split.
  - intros v Hv Hnil Hobj. unfold handleMessageEvent, index at 1 2.
    rewrite Hv. simpl. rewrite Hnil. simpl.
    destruct v; try discriminate; try (eexists; reflexivity).
    exfalso. eapply Hobj. reflexivity.
  - intros evt Hevt Hbot Htype Hsub Hbad.
    unfold handleMessageEvent, index at 1 2. rewrite Hevt. simpl.
    unfold bind at 1, ret at 1. simpl.
    rewrite Hbot, Htype, Hsub. simpl.
    destruct (index evt "text") as [| | |text| |] eqn:Htext;
      try (simpl; eexists; reflexivity).
    destruct (index evt "channel") as [| | |channel| |] eqn:Hchan;
      try (simpl; eexists; reflexivity).
    exfalso. destruct Hbad as [Hbad|Hbad]; eapply Hbad; reflexivity.
Qed.

Lemma malformed_event_panics_witness :
  (exists msg,
      handleMessageEvent {[ "event" := JString "message" ]} (answering 200 []) sample_config
      = mkResult [] sample_config (Panic msg)) /\
  (exists msg,
      handleMessageEvent
        {[ "event" := JObject {[ "type" := JString "message";
                                 "channel" := JString "C1" ]} ]}
        (answering 200 []) sample_config
      = mkResult [] sample_config (Panic msg)).
Proof.
  split.
  - apply (proj1 (malformed_event_panics {[ "event" := JString "message" ]}
                    (answering 200 []) sample_config) (JString "message"));
      [reflexivity | reflexivity | discriminate].
  - apply (proj2 (malformed_event_panics
                    {[ "event" := JObject {[ "type" := JString "message";
                                             "channel" := JString "C1" ]} ]}
                    (answering 200 []) sample_config)
             {[ "type" := JString "message"; "channel" := JString "C1" ]});
      [reflexivity | reflexivity | reflexivity | reflexivity |].
    left. discriminate.
Defined.

(** ** Where a deployment can go *)

Lemma Replace_S (s old new : string) (n : nat) :
  Replace s old new (S n) =
    match Index s old with
    | None => s
    | Some j =>
        str_take j s +:+ new +:+ Replace (str_drop (j + String.length old) s) old new n
    end.
Proof. reflexivity. Qed.

Lemma Index_String (x : ascii) (s substr : string) :
  Index (String x s) substr =
    if HasPrefix (String x s) substr then Some 0 else option_map S (Index s substr).
Proof. reflexivity. Qed.

Lemma HasPrefix_String (x y : ascii) (s p : string) :
  HasPrefix (String x s) (String y p) = Ascii.eqb x y && HasPrefix s p.
Proof. reflexivity. Qed.

Lemma Replace_skip_byte (x : ascii) (s old new : string) (n : nat) :
  HasPrefix (String x s) old = false ->
  Replace (String x s) old new n = String x (Replace s old new n).
Proof.
  intros Hp. destruct n as [|n]; [reflexivity|].
  rewrite !Replace_S, Index_String, Hp.
  destruct (Index s old) as [j|]; reflexivity.
Qed.

(** Replacing a pattern that starts with a brace leaves a brace-free
    prefix alone. *)
Lemma Replace_keeps_prefix (p rest old new : string) (n : nat) :
  has_byte "{" p = false ->
  Replace (p +:+ rest) (String "{" old) new n = p +:+ Replace rest (String "{" old) new n.
Proof.
  induction p as [|x p IH]; intros Hp; [reflexivity|].
  simpl in Hp. apply orb_false_iff in Hp as [Hx Hp].
  rewrite !append_String, Replace_skip_byte, (IH Hp); [reflexivity|].
  rewrite HasPrefix_String, Hx. reflexivity.
Qed.

Lemma deploy_url_prefix (cfg : Config) (p rest service envName : string) :
  URLFormat (Jenkins cfg) = p +:+ rest ->
  has_byte "{" p = false ->
  deploy_url cfg service envName
  = p +:+ Replace (Replace rest "{service-name}" service 1) "{env}" envName 1.
Proof.
  intros Hfmt Hp. unfold deploy_url. rewrite Hfmt.
  now rewrite !Replace_keeps_prefix.
Qed.

(** X7.  What the template holds before its first brace is out of the
    user's reach: every request of a deploy command goes to a URL that
    starts with that part of the template, whatever service and
    environment the message names. *)
Theorem deploy_keeps_template_prefix {uni : Unicode} (cfg : Config) (p rest : string)
    (event : gmap string JSON) (text channel : string) (env : Env) (req : Request) :
  URLFormat (Jenkins cfg) = p +:+ rest ->
  has_byte "{" p = false ->
  plain_message event text channel ->
  HasPrefix (ToLower text) "deploy " = true ->
  In (HttpCall req) (trace (handleMessageEvent event env cfg)) ->
  HasPrefix (req_url req) p = true /\ req_method req = "POST".
Proof.
  intros Hfmt Hp Hplain Hdeploy Hin.
  rewrite (handleMessageEvent_plain _ _ _ _ _ Hplain) in Hin.
  rewrite (Resolve_deploy_prefix _ _ Hdeploy) in Hin.
  destruct (Nat.eqb _ 3).
  - rewrite perform_Deploy in Hin. cbv zeta in Hin.
    rewrite (deploy_url_prefix _ _ _ _ _ Hfmt Hp) in Hin.
    destruct (url_parses env _); simpl in Hin.
    + destruct Hin as [[= <-]|[Hin|[]]]; [|discriminate].
      simpl. split; [|reflexivity]. apply HasPrefix_app. eauto.
    + destruct Hin as [Hin|[]]. discriminate.
  - simpl in Hin. destruct Hin as [Hin|[]]. discriminate.
Qed.

Lemma deploy_keeps_template_prefix_witness :
  HasPrefix
    (req_url (mkRequest "POST" "http://j/job/../../evil/prod/build"
                [("Authorization", "Basic Y2k6c2VjcmV0")]))
    "http://j/job/" = true /\
  req_method (mkRequest "POST" "http://j/job/../../evil/prod/build"
                [("Authorization", "Basic Y2k6c2VjcmV0")]) = "POST".
Proof.
  apply (deploy_keeps_template_prefix sample_config "http://j/job/"
           "{service-name}/{env}/build"
           (message_event "deploy ../../evil prod" "C1")
           "deploy ../../evil prod" "C1" (answering 200 [])).
  - reflexivity.
  - reflexivity.
  - apply message_event_plain.
  - reflexivity.
  - left. reflexivity.
Defined.

(** ** What the reply says *)

Lemma append_inj_l (a b d : string) : a +:+ b = a +:+ d -> b = d.
Proof.
  induction a as [|x a IH]; [now rewrite !append_empty|].
  rewrite !append_String. intros [= H]. now apply IH.
Qed.

Lemma task_reply_differs (task : Task) : task_reply task true <> task_reply task false.
Proof.
  unfold task_reply. intros H. apply append_inj_l in H.
  induction (Command task) as [|x s IH].
  - discriminate H.
  - rewrite !append_String in H. injection H as H. now apply IH.
Qed.

Lemma deploy_reply_differs (service envName : string) :
  deploy_reply service envName true <> deploy_reply service envName false.
Proof. unfold deploy_reply. rewrite !append_String. discriminate. Qed.

#[local] Arguments task_reply : simpl never.
#[local] Arguments deploy_reply : simpl never.

(** X8.  The reply tells the truth about the call: for a static task and
    for a deployment alike, the success text is posted exactly when a
    request was sent and answered with a status from 200 to 299; the two
    texts of an outcome are never the same string. *)
Theorem success_reply_iff {uni : Unicode} (cfg : Config) (event : gmap string JSON)
    (text channel : string) (env : Env) :
  plain_message event text channel ->
  let r := handleMessageEvent event env cfg in
  (forall task,
      Resolve cfg text = StaticTask task ->
      task_reply task true <> task_reply task false /\
      (In (PostMessage channel (task_reply task true)) (trace r) <->
       exists req code,
         In (HttpCall req) (trace r) /\
         round_trip env req = Status code /\ (200 <= code <= 299)%Z)) /\
  (forall service envName,
      Resolve cfg text = Deploy service envName ->
      deploy_reply service envName true <> deploy_reply service envName false /\
      (In (PostMessage channel (deploy_reply service envName true)) (trace r) <->
       exists req code,
         In (HttpCall req) (trace r) /\
         round_trip env req = Status code /\ (200 <= code <= 299)%Z)).
Proof.
  intros Hplain. cbv zeta.
  rewrite (handleMessageEvent_plain _ _ _ _ _ Hplain).
  assert (Hresp : forall resp,
             status_success resp = true <->
             exists code, resp = Status code /\ (200 <= code <= 299)%Z).
  { intros [|code]; simpl.
    - split; [discriminate | intros (c & H & _); discriminate].
    - rewrite andb_true_iff, Z.leb_le, Z.ltb_lt.
      split; [intros H; exists code; split; [reflexivity | lia]
             |intros (c & [= <-] & H); lia]. }
  split.
  - intros task ->. split; [apply task_reply_differs|].
    pose proof (task_reply_differs task) as Hdiff.
    rewrite perform_StaticTask.
    destruct (url_parses env (URL task)); simpl.
    + destruct (status_success _) eqn:Hs.
      * split; [intros _|intros _; right; left; reflexivity].
        apply Hresp in Hs as (code & Hc & Hr). eauto 10.
      * split.
        -- intros [H|[H|[]]]; [discriminate | congruence].
        -- intros (req & code & [[= <-]|[H|[]]] & Hc & Hr); [|discriminate].
           exfalso. assert (status_success (round_trip env (task_request task)) = true)
             by (apply Hresp; eauto). congruence.
    + destruct (_ && _); simpl.
      * split; [intros [] | intros (req & code & [] & _)].
      * split.
        -- intros [H|[]]. congruence.
        -- intros (req & code & [H|[]] & _). discriminate.
  - intros service envName ->. split; [apply deploy_reply_differs|].
    pose proof (deploy_reply_differs service envName) as Hdiff.
    rewrite perform_Deploy. cbv zeta.
    destruct (url_parses env _); simpl.
    + destruct (status_success _) eqn:Hs.
      * split; [intros _|intros _; right; left; reflexivity].
        apply Hresp in Hs as (code & Hc & Hr). eauto 10.
      * split.
        -- intros [H|[H|[]]]; [discriminate | congruence].
        -- intros (req & code & [[= <-]|[H|[]]] & Hc & Hr); [|discriminate].
           exfalso.
           match type of Hs with
           | status_success ?x = false =>
               assert (status_success x = true) by (apply Hresp; eauto)
           end. congruence.
    + split.
      * intros [H|[]]. congruence.
      * intros (req & code & [H|[]] & _). discriminate.
Qed.

Lemma success_reply_iff_witness :
  In (PostMessage "C1" (task_reply (mkTask "Health" "http://x/health" "GET" "" "") true))
     (trace (handleMessageEvent (message_event "HEALTH" "C1") (answering 204 [])
               sample_config)).
Proof.
  apply (proj1 (success_reply_iff sample_config (message_event "HEALTH" "C1")
                  "HEALTH" "C1" (answering 204 []) (message_event_plain _ _))
           (mkTask "Health" "http://x/health" "GET" "" "") eq_refl).
  eexists _, 204%Z. split; [left; reflexivity|]. split; [reflexivity | lia].
Defined.

(** ** The two executors *)

(** X9.  On a URL that [http.NewRequest] accepts and with both
    credentials set, the deployment executor does what the task executor
    does for a ["POST"] task with those credentials: same request, same
    result. *)
Theorem executeJenkinsJob_as_task (command url user token : string)
    (env : Env) (cfg : Config) :
  url_parses env url = true -> user <> "" -> token <> "" ->
  executeJenkinsJob url user token env cfg
  = executeTask (mkTask command url "POST" user token) env cfg.
Proof.
  intros Hurl Hu Ht.
  rewrite executeJenkinsJob_run, executeTask_run. simpl. rewrite Hurl.
  unfold task_request, wants_auth. simpl.
  destruct (String.eqb_spec user ""); [contradiction|].
  destruct (String.eqb_spec token ""); [contradiction|].
  reflexivity.
Qed.

Lemma executeJenkinsJob_as_task_witness :
  executeJenkinsJob "http://x/restart" "u" "t" (answering 500 []) sample_config
  = executeTask (mkTask "Restart API" "http://x/restart" "POST" "u" "t")
      (answering 500 []) sample_config.
Proof.
  apply executeJenkinsJob_as_task; [reflexivity | discriminate | discriminate].
Defined.

(** ** The webhook endpoint *)

#[local] Set Warnings "-clear-no-such-hyp".


(** ** The earlier versions *)

Lemma Original_executeTask_get (task : Task) (env : Env) (cfg : Config) :
  Method task <> "POST" ->
  Original.executeTask (URL task) env cfg = Backup.executeTask task env cfg.
Proof.
  intros Hm. change (Backup.executeTask task) with (executeTask task).
  rewrite executeTask_run.
  unfold Original.executeTask, Original.http_Get, http_NewRequest, client_Do,
    task_request. run.
  destruct (String.eqb_spec (Method task) "POST"); [contradiction|]. simpl.
  destruct (url_parses env (URL task)); simpl; [|reflexivity].
  destruct (round_trip env _) as [|code]; simpl; [reflexivity|].
  destruct ((200 <=? code)%Z && (code <? 300)%Z); reflexivity.
Qed.

(** X11.  The deploy command is the only change to the handler since the
    backup version: on every envelope that is not a plain message whose
    lower-cased text starts with ["deploy "], the two handlers do the
    same. *)
Theorem handler_extends_backup {uni : Unicode} (event : gmap string JSON) (env : Env) (cfg : Config) :
  (forall text channel,
      plain_message event text channel ->
      HasPrefix (ToLower text) "deploy " = false) ->
  handleMessageEvent event env cfg = Backup.handleMessageEvent event env cfg.
Proof.
  intros Hnd. unfold handleMessageEvent, Backup.handleMessageEvent.
  destruct (index event "event") as [| | | | |evt] eqn:Hevt; simpl; try reflexivity.
  apply index_object in Hevt. run.
  destruct (is_nil (index evt "bot_id")) eqn:Hbot; simpl; [|reflexivity].
  destruct (iface_eq_string (index evt "type") "message") eqn:Htype; simpl;
    [|reflexivity].
  destruct (is_nil (index evt "subtype")) eqn:Hsub; simpl; [|reflexivity].
  apply iface_eq_string_true in Htype.
  destruct (index evt "text") as [| | |text| |] eqn:Htext; simpl; try reflexivity.
  destruct (index evt "channel") as [| | |channel| |] eqn:Hchan; simpl;
    try reflexivity.
  rewrite (Hnd text channel) by (exists evt; auto 10).
  reflexivity.
Qed.

Lemma handler_extends_backup_witness :
  handleMessageEvent (message_event "Restart-API" "C1") (answering 200 []) sample_config
  = Backup.handleMessageEvent (message_event "Restart-API" "C1") (answering 200 [])
      sample_config.
Proof.
  apply handler_extends_backup.
  intros text channel (evt & Hevt & _ & _ & _ & Htext & _).
  apply (inj Some) in Hevt. injection Hevt as <-.
  injection Htext as <-. reflexivity.
Defined.

(** What the new branch took away: a task under a key that starts with
    ["deploy "] ran in the backup version and is refused now. *)
Example deploy_key_shadowed :
  trace (Backup.handleMessageEvent (message_event "deploy docs" "C1")
           (answering 200 []) shadowed_config)
    = [HttpCall (mkRequest "GET" "http://x/docs" []);
       PostMessage "C1" "Task 'Deploy docs' executed successfully."] /\
  trace (handleMessageEvent (message_event "deploy docs" "C1")
           (answering 200 []) shadowed_config)
    = [PostMessage "C1" invalid_deploy_reply].
Proof. split; reflexivity. Qed.

(** X12.  A configuration written for the first version, whose tasks
    name no method (or any method other than ["POST"]), is served by the
    backup version exactly as by the first: same calls, same replies, on
    every envelope. *)
Theorem backup_extends_original {uni : Unicode} (event : gmap string JSON) (env : Env) (cfg : Config) :
  (forall key task, Tasks cfg !! key = Some task -> Method task <> "POST") ->
  Backup.handleMessageEvent event env cfg = Original.handleMessageEvent event env cfg.
Proof.
  intros Hget. unfold Backup.handleMessageEvent, Original.handleMessageEvent.
  destruct (index event "event") as [| | | | |evt] eqn:Hevt; simpl; try reflexivity.
  run.
  destruct (is_nil (index evt "bot_id")) eqn:Hbot; simpl; [|reflexivity].
  destruct (iface_eq_string (index evt "type") "message") eqn:Htype; simpl;
    [|reflexivity].
  destruct (is_nil (index evt "subtype")) eqn:Hsub; simpl; [|reflexivity].
  destruct (index evt "text") as [| | |text| |] eqn:Htext; simpl; try reflexivity.
  destruct (index evt "channel") as [| | |channel| |] eqn:Hchan; simpl;
    try reflexivity.
  destruct (_ || _); simpl; [reflexivity|].
  destruct (Tasks cfg !! ToLower text) as [task|] eqn:Hlook; simpl; [|reflexivity].
  rewrite (Original_executeTask_get task env cfg (Hget _ _ Hlook)).
  reflexivity.
Qed.

Lemma backup_extends_original_witness :
  Backup.handleMessageEvent (message_event "deploy docs" "C1") (answering 200 [])
    shadowed_config
  = Original.handleMessageEvent (message_event "deploy docs" "C1") (answering 200 [])
      shadowed_config.
Proof.
  apply backup_extends_original.
  intros key task Hlook. unfold shadowed_config in Hlook. simpl in Hlook.
  apply lookup_singleton_Some in Hlook as [_ <-]. discriminate.
Defined.

(** ** The credentials in the header *)

Section Base64Facts.

Import Base64.

Lemma land63_lt (v : N) : (N.land v 63 < 64)%N.
Proof.
  change 63%N with (N.ones 6). rewrite N.land_ones.
  apply N.mod_lt. discriminate.
Qed.

Lemma land63_mod (v : N) : N.land v 63 = (v mod 64)%N.
Proof. change 63%N with (N.ones 6). now rewrite N.land_ones. Qed.

(** Each of the 64 values has its own digit, which is no control byte,
    no blank and not the padding sign. *)
Lemma enc_table (v : N) :
  find_byte (enc v) encodeStd = N.land v 63 /\
  has_byte (enc v) encodeStd = true /\
  Ascii.eqb (enc v) pad = false /\
  is_ctl (enc v) = false /\
  Ascii.eqb (enc v) " " = false.
Proof.
  unfold enc. pose proof (land63_lt v) as Hlt.
  destruct (N.land v 63) as [|p]; [repeat split; reflexivity|].
  do 6 (destruct p as [p|p|]; try (repeat split; reflexivity); try (exfalso; lia)).
Qed.

Lemma enc_inj (x y : N) : enc x = enc y -> (x mod 64 = y mod 64)%N.
Proof.
  intros H. rewrite <- !land63_mod.
  rewrite <- (proj1 (enc_table x)), <- (proj1 (enc_table y)). now rewrite H.
Qed.

Lemma enc_not_pad (v : N) : enc v <> pad.
Proof.
  intros H. pose proof (proj1 (proj2 (proj2 (enc_table v)))) as Hp.
  rewrite H in Hp. discriminate.
Qed.

Lemma list3_ind (P : list N -> Prop) :
  P [] -> (forall a, P [a]) -> (forall a b, P [a; b]) ->
  (forall a b c rest, P rest -> P (a :: b :: c :: rest)) ->
  forall l, P l.
Proof.
  intros H0 H1 H2 H3 l.
  assert (H : forall n l, length l <= n -> P l).
  { induction n as [|n IH]; intros [|a [|b [|c rest]]] Hlen; simpl in Hlen;
      auto; try lia.
    apply H3, IH. lia. }
  apply (H (length l)). lia.
Qed.

Lemma encode_length (src : list N) :
  String.length (encode src) = 4 * ((length src + 2) / 3).
Proof.
  induction src as [| | |a b c rest IH] using list3_ind; try reflexivity.
  cbn [encode length String.length]. rewrite IH.
  replace (S (S (S (length rest))) + 2) with (1 * 3 + (length rest + 2)) by lia.
  rewrite Nat.div_add_l by discriminate. lia.
Qed.

Lemma encode_bytes (src : list N) : all_bytes is_b64_byte (encode src) = true.
Proof.
  assert (Hd : forall v, is_b64_byte (enc v) = true).
  { intros v. unfold is_b64_byte. now rewrite (proj1 (proj2 (enc_table v))). }
  induction src as [| | |a b c rest IH] using list3_ind;
    cbn [encode all_bytes]; rewrite ?Hd, ?IH; reflexivity.
Qed.

Lemma bytes_length (s : string) : length (bytes s) = String.length s.
Proof. induction s as [|x s IH]; simpl; [reflexivity | now rewrite IH]. Qed.

Lemma is_b64_byte_plain (c : ascii) :
  is_b64_byte c = true ->
  is_ctl c = false /\ Ascii.eqb c " " = false /\ Ascii.eqb c ":" = false.
Proof.
  destruct c as [[] [] [] [] [] [] [] []]; intros H;
    try discriminate H; repeat split; reflexivity.
Qed.

Lemma all_bytes_impl (P Q : ascii -> bool) (s : string) :
  (forall c, P c = true -> Q c = true) ->
  all_bytes P s = true -> all_bytes Q s = true.
Proof.
  intros HPQ. induction s as [|x s IH]; simpl; [reflexivity|].
  intros H. apply andb_true_iff in H as [Hx Hs].
  now rewrite (HPQ _ Hx), (IH Hs).
Qed.

Lemma all_bytes_not_ctl (s : string) :
  all_bytes (fun c => negb (is_ctl c)) s = true -> stringContainsCTLByte s = false.
Proof.
  induction s as [|x s IH]; simpl; [reflexivity|].
  intros H. apply andb_true_iff in H as [Hx Hs].
  apply negb_true_iff in Hx. now rewrite Hx, (IH Hs).
Qed.

Lemma all_bytes_not_blank (s : string) :
  all_bytes (fun c => negb (Ascii.eqb c " ")) s = true -> has_byte " " s = false.
Proof.
  induction s as [|x s IH]; simpl; [reflexivity|].
  intros H. apply andb_true_iff in H as [Hx Hs].
  apply negb_true_iff in Hx. now rewrite Hx, (IH Hs).
Qed.

(** X13.  Whatever bytes the credentials hold, the value that the
    executors put after ["Basic "] is made of base64 digits and padding
    only: it carries no control byte and no blank, and is four bytes long
    for every three bytes, or part of three, of [user:token]. *)
Theorem EncodeToString_wellformed (s : string) :
  all_bytes is_b64_byte (EncodeToString s) = true /\
  String.length (EncodeToString s) = 4 * ((String.length s + 2) / 3) /\
  stringContainsCTLByte (EncodeToString s) = false /\
  has_byte " " (EncodeToString s) = false.
Proof.
  unfold EncodeToString.
  pose proof (encode_bytes (bytes s)) as Hb.
  split; [exact Hb|]. split; [now rewrite encode_length, bytes_length|].
  split.
  - apply all_bytes_not_ctl. revert Hb. apply all_bytes_impl.
    intros c Hc. now rewrite (proj1 (is_b64_byte_plain c Hc)).
  - apply all_bytes_not_blank. revert Hb. apply all_bytes_impl.
    intros c Hc. now rewrite (proj1 (proj2 (is_b64_byte_plain c Hc))).
Qed.

(** The 24 bits of a block are fixed by its four digits. *)
Lemma sextets_eq (v w : N) :
  (v < 16777216)%N -> (w < 16777216)%N ->
  ((v / 262144) mod 64 = (w / 262144) mod 64)%N ->
  ((v / 4096) mod 64 = (w / 4096) mod 64)%N ->
  ((v / 64) mod 64 = (w / 64) mod 64)%N ->
  (v mod 64 = w mod 64)%N -> v = w.
Proof.
  intros Hv Hw H3 H2 H1 H0.
  change 262144%N with (64 * 64 * 64)%N in *. change 4096%N with (64 * 64)%N in *.
  rewrite <- !N.Div0.div_div in *.
  pose proof (N.div_mod v 64 ltac:(lia)).
  pose proof (N.div_mod w 64 ltac:(lia)).
  pose proof (N.div_mod (v / 64) 64 ltac:(lia)).
  pose proof (N.div_mod (w / 64) 64 ltac:(lia)).
  pose proof (N.div_mod (v / 64 / 64) 64 ltac:(lia)).
  pose proof (N.div_mod (w / 64 / 64) 64 ltac:(lia)).
  pose proof (N.div_mod (v / 64 / 64 / 64) 64 ltac:(lia)).
  pose proof (N.div_mod (w / 64 / 64 / 64) 64 ltac:(lia)).
  assert (v / 64 / 64 / 64 / 64 = 0)%N
    by (rewrite !N.Div0.div_div; apply N.div_small; lia).
  assert (w / 64 / 64 / 64 / 64 = 0)%N
    by (rewrite !N.Div0.div_div; apply N.div_small; lia).
  lia.
Qed.

Lemma lor_shiftl_add (x y k : N) :
  (y < 2 ^ k)%N -> N.lor (N.shiftl x k) y = (x * 2 ^ k + y)%N.
Proof.
  intros Hy.
  assert (Hdisj : N.land (N.shiftl x k) y = 0%N).
  { rewrite <- (N.mod_small y (2 ^ k)) by exact Hy.
    rewrite <- N.land_ones, (N.land_comm y), N.land_assoc, N.land_ones.
    rewrite N.shiftl_mul_pow2, N.Div0.mod_mul. apply N.land_0_l. }
  rewrite <- N.lxor_lor, <- N.add_nocarry_lxor by exact Hdisj.
  now rewrite N.shiftl_mul_pow2.
Qed.

(** The value of a block of three, two and one byte. *)
Lemma block3 (a b c : N) :
  (a < 256)%N -> (b < 256)%N -> (c < 256)%N ->
  N.lor (N.lor (N.shiftl a 16) (N.shiftl b 8)) c = (a * 65536 + b * 256 + c)%N.
Proof.
  intros Ha Hb Hc.
  rewrite (lor_shiftl_add a (N.shiftl b 8) 16)
    by (rewrite N.shiftl_mul_pow2; change (2 ^ 8)%N with 256%N;
        change (2 ^ 16)%N with 65536%N; lia).
  rewrite N.shiftl_mul_pow2.
  change (2 ^ 8)%N with 256%N. change (2 ^ 16)%N with 65536%N.
  replace (a * 65536 + b * 256)%N with (N.shiftl (a * 256 + b) 8)
    by (rewrite N.shiftl_mul_pow2; change (2 ^ 8)%N with 256%N; lia).
  rewrite lor_shiftl_add by (change (2 ^ 8)%N with 256%N; lia).
  rewrite N.shiftl_mul_pow2. reflexivity.
Qed.

Lemma block2 (a b : N) :
  (a < 256)%N -> (b < 256)%N ->
  N.lor (N.shiftl a 16) (N.shiftl b 8) = (a * 65536 + b * 256 + 0)%N.
Proof.
  intros Ha Hb. rewrite <- (block3 a b 0) by lia. now rewrite N.lor_0_r.
Qed.

Lemma block1 (a : N) : N.shiftl a 16 = (a * 65536 + 0 * 256 + 0)%N.
Proof. rewrite N.shiftl_mul_pow2. change (2 ^ 16)%N with 65536%N. lia. Qed.

Lemma enc_shiftr_inj (v w k : N) :
  enc (N.shiftr v k) = enc (N.shiftr w k) ->
  ((v / 2 ^ k) mod 64 = (w / 2 ^ k) mod 64)%N.
Proof. intros H. apply enc_inj in H. now rewrite !N.shiftr_div_pow2 in H. Qed.

(** Sources of fewer than 24 bits leave the digits they do not reach at
    zero. *)
Lemma low_sextets_zero (a b : N) :
  ((a * 65536 + b * 256 + 0) mod 64 = 0)%N /\
  ((a * 65536 + 0 * 256 + 0) / 64 mod 64 = 0)%N.
Proof.
  split.
  - replace (a * 65536 + b * 256 + 0)%N with ((a * 1024 + b * 4) * 64)%N by lia.
    apply N.Div0.mod_mul.
  - replace (a * 65536 + 0 * 256 + 0)%N with ((a * 1024) * 64)%N by lia.
    rewrite N.div_mul by discriminate.
    replace (a * 1024)%N with ((a * 16) * 64)%N by lia.
    apply N.Div0.mod_mul.
Qed.

Lemma block_inj (a b c a' b' c' : N) :
  (a < 256)%N -> (b < 256)%N -> (c < 256)%N ->
  (a' < 256)%N -> (b' < 256)%N -> (c' < 256)%N ->
  let v := (a * 65536 + b * 256 + c)%N in
  let w := (a' * 65536 + b' * 256 + c')%N in
  ((v / 2 ^ 18) mod 64 = (w / 2 ^ 18) mod 64)%N ->
  ((v / 2 ^ 12) mod 64 = (w / 2 ^ 12) mod 64)%N ->
  ((v / 2 ^ 6) mod 64 = (w / 2 ^ 6) mod 64)%N ->
  (v mod 64 = w mod 64)%N ->
  a = a' /\ b = b' /\ c = c'.
Proof.
  intros Ha Hb Hc Ha' Hb' Hc' v w H3 H2 H1 H0.
  assert (Hvw : v = w).
  { apply sextets_eq; try assumption; subst v w; lia. }
  subst v w. lia.
Qed.

Lemma encode_inj (l1 l2 : list N) :
  Forall (fun a => (a < 256)%N) l1 -> Forall (fun a => (a < 256)%N) l2 ->
  encode l1 = encode l2 -> l1 = l2.
Proof.
  revert l2.
  induction l1 as [|a|a b|a b c rest IH] using list3_ind;
    intros [|a' [|b' [|c' rest']]] Hl1 Hl2 H;
    cbn [encode] in H; try discriminate H; try reflexivity;
    try (exfalso; injection H; intros;
         match goal with
         | E : enc _ = pad |- _ => exact (enc_not_pad _ E)
         | E : pad = enc _ |- _ => exact (enc_not_pad _ (eq_sym E))
         end).
  - (* one byte each *)
    injection H as E3 E2.
    rewrite !block1 in *.
    apply enc_shiftr_inj in E3, E2.
    pose proof (Forall_inv Hl1) as Ha. pose proof (Forall_inv Hl2) as Ha'.
    simpl in Ha, Ha'.
    destruct (block_inj a 0 0 a' 0 0) as (-> & _ & _); try lia; try assumption.
    + change (2 ^ 6)%N with 64%N.
      now rewrite (proj2 (low_sextets_zero a 0)), (proj2 (low_sextets_zero a' 0)).
    + pose proof (proj1 (low_sextets_zero a 0)).
      pose proof (proj1 (low_sextets_zero a' 0)). congruence.
    + reflexivity.
  - (* two bytes each *)
    injection H as E3 E2 E1.
    pose proof (Forall_inv Hl1) as Ha. pose proof (Forall_inv Hl2) as Ha'.
    pose proof (Forall_inv (Forall_inv_tail Hl1)) as Hb.
    pose proof (Forall_inv (Forall_inv_tail Hl2)) as Hb'.
    simpl in Ha, Ha', Hb, Hb'.
    rewrite !block2 in * by assumption.
    apply enc_shiftr_inj in E3, E2, E1.
    destruct (block_inj a b 0 a' b' 0) as (-> & -> & _); try lia; try assumption.
    + pose proof (proj1 (low_sextets_zero a b)).
      pose proof (proj1 (low_sextets_zero a' b')). congruence.
    + reflexivity.
  - (* three bytes each, and the rest *)
    injection H as E3 E2 E1 E0 Er.
    pose proof (Forall_inv Hl1) as Ha. pose proof (Forall_inv Hl2) as Ha'.
    pose proof (Forall_inv (Forall_inv_tail Hl1)) as Hb.
    pose proof (Forall_inv (Forall_inv_tail Hl2)) as Hb'.
    pose proof (Forall_inv (Forall_inv_tail (Forall_inv_tail Hl1))) as Hc.
    pose proof (Forall_inv (Forall_inv_tail (Forall_inv_tail Hl2))) as Hc'.
    pose proof (Forall_inv_tail (Forall_inv_tail (Forall_inv_tail Hl1))) as Hr.
    pose proof (Forall_inv_tail (Forall_inv_tail (Forall_inv_tail Hl2))) as Hr'.
    simpl in Ha, Ha', Hb, Hb', Hc, Hc'.
    rewrite !block3 in * by assumption.
    apply enc_shiftr_inj in E3, E2, E1. apply enc_inj in E0.
    destruct (block_inj a b c a' b' c') as (-> & -> & ->); try assumption.
    f_equal. f_equal. f_equal. now apply IH.
Qed.

Lemma bytes_bound (s : string) : Forall (fun a => (a < 256)%N) (bytes s).
Proof.
  induction s as [|x s IH]; simpl; constructor; [|exact IH].
  apply N_ascii_bounded.
Qed.

Lemma bytes_inj (s1 s2 : string) : bytes s1 = bytes s2 -> s1 = s2.
Proof.
  revert s2. induction s1 as [|x s1 IH]; intros [|y s2]; simpl; try discriminate;
    [reflexivity|].
  intros [= Hxy H]. f_equal; [|now apply IH].
  rewrite <- (ascii_N_embedding x), <- (ascii_N_embedding y). now rewrite Hxy.
Qed.

Lemma EncodeToString_inj (s1 s2 : string) :
  EncodeToString s1 = EncodeToString s2 -> s1 = s2.
Proof.
  intros H. apply bytes_inj, encode_inj; auto using bytes_bound.
Qed.

End Base64Facts.

(** The first colon cuts [user:token] in one way only. *)
Lemma colon_split (user1 token1 user2 token2 : string) :
  has_byte ":" user1 = false -> has_byte ":" user2 = false ->
  user1 +:+ ":" +:+ token1 = user2 +:+ ":" +:+ token2 ->
  user1 = user2 /\ token1 = token2.
Proof.
  revert user2. induction user1 as [|x u1 IH]; intros [|y u2] H1 H2 H;
    repeat (rewrite append_String in H || rewrite append_empty in H).
  - injection H as ->. now split.
  - injection H as <- _. simpl in H2. discriminate.
  - injection H as -> _. simpl in H1. discriminate.
  - injection H as -> H. simpl in H1, H2.
    apply orb_false_iff in H1 as [_ H1]. apply orb_false_iff in H2 as [_ H2].
    destruct (IH _ H1 H2 H) as [-> ->]. now split.
Qed.

(** X14.  The header names its credentials: two pairs of user and token
    whose users hold no colon give the same [Authorization] value only if
    they are the same pair. *)
Theorem basic_auth_injective (user1 token1 user2 token2 : string) :
  has_byte ":" user1 = false -> has_byte ":" user2 = false ->
  basic_auth user1 token1 = basic_auth user2 token2 ->
  user1 = user2 /\ token1 = token2.
Proof.
  intros H1 H2 H. unfold basic_auth in H. injection H as H.
  apply append_inj_l, EncodeToString_inj in H.
  now apply colon_split.
Qed.

Lemma basic_auth_injective_witness : "ci" = "ci" /\ "" = "".
Proof.
  apply (basic_auth_injective "ci" "" "ci" ""); reflexivity.
Defined.

(** ** Templates without placeholders *)

Lemma Replace_empty_length (s old : string) :
  String.length (Replace s old "" 1) <= String.length s /\
  (forall j, Index s old = Some j -> old <> "" ->
             String.length (Replace s old "" 1) < String.length s).
Proof.
  destruct (Index s old) as [j|] eqn:Hj.
  - destruct (Replace_first_occurrence s old "" j Hj) as (rest & Hs & Hr).
    pose proof (f_equal String.length Hs) as Hl.
    rewrite Hr. rewrite !length_append in *. simpl.
    split; [lia|]. intros ? _ Hne. destruct old; [contradiction|]. simpl in Hl. lia.
  - rewrite (Replace_absent _ _ _ _ Hj). split; [lia | discriminate].
Qed.

(** X15.  The arguments of a deploy command reach the URL exactly when
    the template holds a placeholder: a template with neither
    ["{service-name}"] nor ["{env}"] is accepted, and every deploy command
    then goes to the template itself, whatever service and environment it
    names. *)
Theorem deploy_url_constant (cfg : Config) :
  (forall service envName, deploy_url cfg service envName = URLFormat (Jenkins cfg)) <->
  Index (URLFormat (Jenkins cfg)) "{service-name}" = None /\
  Index (URLFormat (Jenkins cfg)) "{env}" = None.
Proof.
  unfold deploy_url. split.
  - intros H. specialize (H "" "").
    pose proof (Replace_empty_length (URLFormat (Jenkins cfg)) "{service-name}")
      as [Hle1 Hlt1].
    pose proof (Replace_empty_length
                  (Replace (URLFormat (Jenkins cfg)) "{service-name}" "" 1) "{env}")
      as [Hle2 Hlt2].
    apply (f_equal String.length) in H.
    destruct (Index (URLFormat (Jenkins cfg)) "{service-name}") as [i|] eqn:Hi.
    + specialize (Hlt1 i eq_refl ltac:(discriminate)). lia.
    + split; [reflexivity|].
      rewrite (Replace_absent _ _ _ _ Hi) in *.
      destruct (Index (URLFormat (Jenkins cfg)) "{env}") as [j|] eqn:Hj;
        [|reflexivity].
      specialize (Hlt2 j eq_refl ltac:(discriminate)). lia.
  - intros [Hs He] service envName.
    now rewrite (Replace_absent _ _ _ _ Hs), (Replace_absent _ _ _ _ He).
Qed.

(** ** Events that are not answered *)

(** X16.  An envelope whose [event] is absent or [null], and a nested
    event that carries a [bot_id] or a [subtype] (of any value but
    [null]) or whose [type] is not the string ["message"], make the
    handler return at once: nothing is sent, nothing panics, even if the
    text names a command. *)
Theorem ignored_events {uni : Unicode} (event : gmap string JSON) (env : Env) (cfg : Config) :
  (is_nil (index event "event") = true ->
   handleMessageEvent event env cfg = mkResult [] cfg (Done tt)) /\
  (forall evt,
      event !! "event" = Some (JObject evt) ->
      is_nil (index evt "bot_id") = false \/
      is_nil (index evt "subtype") = false \/
      index evt "type" <> JString "message" ->
      handleMessageEvent event env cfg = mkResult [] cfg (Done tt)).
Proof.
  split.
  - apply missing_event_silent.
  - intros evt. apply filtered_event_silent.
Qed.

Lemma ignored_events_witness :
  handleMessageEvent
    {[ "event" := JObject {[ "type" := JString "message";
                             "bot_id" := JString "B1";
                             "text" := JString "restart-api";
                             "channel" := JString "C1" ]} ]}
    (answering 200 []) sample_config
  = mkResult [] sample_config (Done tt).
Proof.
  apply (proj2 (ignored_events _ (answering 200 []) sample_config)
           {[ "type" := JString "message"; "bot_id" := JString "B1";
              "text" := JString "restart-api"; "channel" := JString "C1" ]}).
  - reflexivity.
  - left. reflexivity.
Defined.
